(** * gym-idsgame: network topology, action interpretation and the PPO
      trainer's opponent-pool and episode bookkeeping.

    A shallow embedding of
    - [gym_idsgame/envs/dao/network_config.py]   (module [Topology]),
    - [gym_idsgame/envs/dao/game_config.py] and
      [gym_idsgame/envs/util/idsgame_util.py]     (module [Game]),
    - [gym_idsgame/agents/training_agents/openai_baselines/common/ppo/ppo.py]
      (module [Trainer]).

    Python integers are [Z] (loop indices, which come from [range], are
    [nat] and are injected with [Z.of_nat]); Python exceptions are the
    [Raise] outcome of the [result] monad below; Python lists are [list],
    indexed the way Python indexes them ([py_index]: negative indices wrap,
    anything else out of range raises [IndexError]). *)

From Stdlib Require Import Reals Lra ZArith List Lia Bool Floats.
From stdpp Require Import base tactics option list numbers.

Local Open Scope Z_scope.

(** ** Exceptions and the error monad *)

Inductive exn : Set :=
| ValueError
| IndexError
| AssertionError
| ZeroDivisionError
| AttributeError
| TypeError
| UnboundLocalError.

Inductive result (A : Type) : Type :=
| Ok (a : A)
| Raise (e : exn).

Arguments Ok {A} a.
Arguments Raise {A} e.

#[global] Instance exn_eq_dec : EqDecision exn.
Proof. solve_decision. Defined.

#[global] Instance result_ret : MRet result := fun _ a => Ok a.

#[global] Instance result_bind : MBind result := fun _ _ f m =>
  match m with
  | Ok a => f a
  | Raise e => Raise e
  end.

#[global] Instance result_fmap : FMap result := fun _ _ f m =>
  match m with
  | Ok a => Ok (f a)
  | Raise e => Raise e
  end.

Definition is_Ok {A} (r : result A) : Prop :=
  match r with Ok _ => True | Raise _ => False end.

(** [l[i]] for a Python list (and for one axis of a numpy array). *)
Definition py_index {A} (l : list A) (i : Z) : result A :=
  let n := Z.of_nat (length l) in
  let k := if decide (i < 0) then n + i else i in
  if decide (0 <= k < n) then
    match l !! Z.to_nat k with
    | Some a => Ok a
    | None => Raise IndexError
    end
  else Raise IndexError.

(** Python's [a // b] and [a % b] on integers: floor division, the
    remainder has the sign of the divisor (as [Z.div] and [Z.modulo]), and
    a zero divisor raises. *)
Definition py_floordiv (a b : Z) : result Z :=
  if decide (b = 0) then Raise ZeroDivisionError else Ok (a `div` b).

Definition py_mod (a b : Z) : result Z :=
  if decide (b = 0) then Raise ZeroDivisionError else Ok (a `mod` b).

(** The pairs [(i, j)] visited by
    [for i in range(n): for j in range(m): ...], in visiting order. *)
Definition index_pairs (n m : nat) : list (nat * nat) :=
  i ← seq 0 n; (fun j => (i, j)) <$> seq 0 m.

(** ** Node types *)

(** Modelled from the spec: the [NodeType] enum of
    [gym_idsgame/envs/dao/node_type.py] is not part of the sources at hand;
    the spec lists its four members.  The code only ever compares their
    [.value]s for equality, and the members of an [Enum] have distinct
    values. *)
Inductive NodeType : Set := START | EMPTY | SERVER | DATA.

#[global] Instance NodeType_eq_dec : EqDecision NodeType.
Proof. solve_decision. Defined.

#[global] Instance NodeType_inhabited : Inhabited NodeType := populate EMPTY.

(** ** network_config.py *)

Module Topology.

Record NetworkConfig : Type := mkNetworkConfig {
  num_rows : nat;
  num_cols : nat;
  graph_layout : list (list NodeType);
  adjacency_matrix : list (list Z)
}.

(** The value written to [graph_layout[i][j]] by [__default_graph_layout]. *)
Definition layout_cell (num_rows num_cols i j : nat) : NodeType :=
  if decide (Z.of_nat i = Z.of_nat num_rows - 1) then
    if decide (j = num_cols `div` 2)%nat then START else EMPTY
  else if decide (i = 0)%nat then
    if decide (j = num_cols `div` 2)%nat then DATA else EMPTY
  else SERVER.

Definition default_graph_layout (num_rows num_cols : nat) : list (list NodeType) :=
  (fun i => (fun j => layout_cell num_rows num_cols i j) <$> seq 0 num_cols)
    <$> seq 0 num_rows.

(** [self.graph_layout[i][j]]; every access in the class has
    [i < num_rows] and [j < num_cols]. *)
Definition layout_at (self : NetworkConfig) (i j : nat) : NodeType :=
  (graph_layout self !!! i) !!! j.

Definition cells (self : NetworkConfig) : list (nat * nat) :=
  index_pairs (num_rows self) (num_cols self).

(** [start_pos] and [data_pos]: the first cell, in row-major order, holding
    the wanted type; [AssertionError] when there is none. *)
Fixpoint find_pos (self : NetworkConfig) (ty : NodeType) (cs : list (nat * nat))
  : result (Z * Z) :=
  match cs with
  | [] => Raise AssertionError
  | (i, j) :: rest =>
      if decide (layout_at self i j = ty) then Ok (Z.of_nat i, Z.of_nat j)
      else find_pos self ty rest
  end.

Definition start_pos (self : NetworkConfig) : result (Z * Z) :=
  find_pos self START (cells self).

Definition data_pos (self : NetworkConfig) : result (Z * Z) :=
  find_pos self DATA (cells self).

Definition start_row (self : NetworkConfig) : result Z := fst <$> start_pos self.
Definition start_col (self : NetworkConfig) : result Z := snd <$> start_pos self.
Definition data_row (self : NetworkConfig) : result Z := fst <$> data_pos self.
Definition data_col (self : NetworkConfig) : result Z := snd <$> data_pos self.

(** [get_coords]: the grid coordinates of an index of the adjacency
    matrix. *)
Definition get_coords (self : NetworkConfig) (node_id : Z) : result (Z * Z) :=
  row ← py_floordiv node_id (Z.of_nat (num_cols self));
  col ← py_mod node_id (Z.of_nat (num_cols self));
  Ok (row, col).

(** [node_list]: the types of the non-EMPTY cells, in row-major order; the
    index in the list is the node id. *)
Definition occupied (self : NetworkConfig) (c : nat * nat) : Prop :=
  layout_at self c.1 c.2 ≠ EMPTY.

#[global] Instance occupied_dec self c : Decision (occupied self c).
Proof. unfold occupied. apply _. Defined.

Definition node_list (self : NetworkConfig) : list NodeType :=
  (fun c => layout_at self c.1 c.2) <$> filter (occupied self) (cells self).

(** The double loop of [get_node_pos], from a given cell on, with [count]
    the value of the local variable when that cell is reached. *)
Fixpoint get_node_pos_from (self : NetworkConfig) (node_id count : Z)
    (cs : list (nat * nat)) : result (Z * Z) :=
  match cs with
  | [] => Raise ValueError
  | (i, j) :: rest =>
      if decide (node_id = count) then Ok (Z.of_nat i, Z.of_nat j)
      else get_node_pos_from self node_id
             (if decide (occupied self (i, j)) then count + 1 else count) rest
  end.

Definition get_node_pos (self : NetworkConfig) (node_id : Z) : result (Z * Z) :=
  get_node_pos_from self node_id 0 (cells self).

(** The double loop of [get_node_id]. *)
Fixpoint get_node_id_from (self : NetworkConfig) (row col count : Z)
    (cs : list (nat * nat)) : result Z :=
  match cs with
  | [] => Raise ValueError
  | (i, j) :: rest =>
      if decide (row = Z.of_nat i ∧ col = Z.of_nat j) then
        if decide (layout_at self i j = EMPTY) then Ok (-1) else Ok count
      else get_node_id_from self row col
             (if decide (occupied self (i, j)) then count + 1 else count) rest
  end.

Definition get_node_id (self : NetworkConfig) (pos : Z * Z) : result Z :=
  get_node_id_from self pos.1 pos.2 0 (cells self).

(** *** The adjacency matrix *)

Definition zeros (n m : nat) : list (list Z) := replicate n (replicate m 0).

(** [M[i][j] = v] *)
Definition mset (M : list (list Z)) (i j : nat) (v : Z) : list (list Z) :=
  <[i := <[j := v]> (M !!! i)]> M.

(** [M[i][j]] for indices that come from [range]. *)
Definition mget (M : list (list Z)) (i j : nat) : option Z :=
  M !! i ≫= (.!! j).

(** [adjacency_matrix[i][j] = 1; adjacency_matrix[j][i] = 1] *)
Definition set_edge (M : list (list Z)) (i j : nat) : list (list Z) :=
  mset (mset M i j 1) j i 1.

(** The body of the inner loop of [__default_adjacency_matrix].  The
    properties [data_row], [start_row], ... rescan the layout each time they
    are read; they are bound here where the code first reads them, so that a
    missing DATA or START cell raises where the code raises. *)
Definition adjacency_body (self : NetworkConfig) (M : list (list Z))
    (ij : nat * nat) : result (list (list Z)) :=
  let '(i, j) := ij in
  let row_1 := Z.of_nat i `div` Z.of_nat (num_cols self) in
  let col_1 := Z.of_nat i `mod` Z.of_nat (num_cols self) in
  let row_2 := Z.of_nat j `div` Z.of_nat (num_cols self) in
  let col_2 := Z.of_nat j `mod` Z.of_nat (num_cols self) in
  dr ← data_row self;
  if decide (row_1 = dr) then
    if decide (row_2 = dr + 1) then
      dc ← data_col self;
      if decide (col_1 = dc) then Ok (set_edge M i j) else Ok M
    else Ok M
  else
    sr ← start_row self;
    if decide (row_1 = sr) then
      if decide (row_2 = sr - 1) then
        sc ← start_col self;
        if decide (col_1 = sc) then Ok (set_edge M i j) else Ok M
      else Ok M
    else
      if decide (row_2 = row_1 + 1 ∧ col_1 = col_2 ∧ row_1 ≠ sr ∧ row_2 ≠ sr)
      then Ok (set_edge M i j) else Ok M.

Definition default_adjacency_matrix (self : NetworkConfig) : result (list (list Z)) :=
  let n := (num_rows self * num_cols self)%nat in
  foldl (fun acc ij => M ← acc; adjacency_body self M ij)
        (Ok (zeros n n)) (index_pairs n n).

(** [NetworkConfig.__init__]: the adjacency matrix is built from an object
    that already has its layout. *)
Definition init (num_rows num_cols : nat) : result NetworkConfig :=
  let self := mkNetworkConfig num_rows num_cols
                (default_graph_layout num_rows num_cols) [] in
  A ← default_adjacency_matrix self;
  Ok (mkNetworkConfig num_rows num_cols (graph_layout self) A).

(** A matrix has shape [n] x [n]. *)
Definition square (n : nat) (M : list (list Z)) : Prop :=
  length M = n ∧ Forall (fun r => length r = n) M.

(** [M[i][j] == M[j][i]] wherever either side exists. *)
Definition symmetric (M : list (list Z)) : Prop :=
  ∀ i j, mget M i j = mget M j i.

(** The cell with index [a] links to the cell with index [b]: the three
    conditions under which the loop writes an edge, on the default layout
    (DATA in the middle of row 0, START in the middle of the last row). *)
Definition linked (num_rows num_cols : nat) (a b : nat) : Prop :=
  let row_1 := Z.of_nat a `div` Z.of_nat num_cols in
  let col_1 := Z.of_nat a `mod` Z.of_nat num_cols in
  let row_2 := Z.of_nat b `div` Z.of_nat num_cols in
  let col_2 := Z.of_nat b `mod` Z.of_nat num_cols in
  if decide (row_1 = 0) then
    row_2 = 1 ∧ col_1 = Z.of_nat (num_cols `div` 2)
  else if decide (row_1 = Z.of_nat num_rows - 1) then
    row_2 = Z.of_nat num_rows - 2 ∧ col_1 = Z.of_nat (num_cols `div` 2)
  else
    row_2 = row_1 + 1 ∧ col_1 = col_2 ∧ row_2 ≠ Z.of_nat num_rows - 1.

#[global] Instance linked_dec nr nc a b : Decision (linked nr nc a b).
Proof. unfold linked. cbv zeta. repeat case_decide; apply _. Defined.

(** For a condition [W] under which a loop over pairs writes both entries
    of an edge: the loop as a pure fold, and the edges written once the
    pairs [ps] have been visited. *)
Definition pure_step (W : nat → nat → Prop) `{!∀ i j, Decision (W i j)}
    (M : list (list Z)) (p : nat * nat) : list (list Z) :=
  if decide (W p.1 p.2) then set_edge M p.1 p.2 else M.

Definition written (W : nat → nat → Prop) (ps : list (nat * nat)) (a b : nat) : Prop :=
  Exists (fun p => W p.1 p.2 ∧ ((a = p.1 ∧ b = p.2) ∨ (a = p.2 ∧ b = p.1))) ps.

End Topology.

(** ** game_config.py and idsgame_util.py *)

Module Game.
Import Topology.

Record GameConfig : Type := mkGameConfig {
  num_layers : nat;
  num_servers_per_layer : nat;
  num_attack_types : Z;
  max_value : Z;
  num_nodes : Z;
  num_attack_actions : Z;
  num_defense_actions : Z;
  num_states : Z;
  network_config : NetworkConfig
}.

(** [GameConfig.__init__] with [initial_state=None], for a number of layers
    and of servers per layer that is not negative (they are counts; with a
    negative one the real constructor fails in numpy or in the network's
    constructor, which this model does not cover).  The [GameState] class
    is outside the sources at hand; of the construction of the default
    initial state only the reading of [start_pos] (which can raise) is
    kept, so a result [Ok gc] says what the configuration is when the
    constructor returns, not that [GameState.default_state] returns. *)
Definition init (network_config : option NetworkConfig)
    (num_layers num_servers_per_layer : nat) (num_attack_types max_value : Z)
  : result GameConfig :=
  let num_rows := (num_layers + 2)%nat in
  let num_nodes := Z.of_nat num_layers * Z.of_nat num_servers_per_layer + 2 in
  let num_cols := num_servers_per_layer in
  nc ← match network_config with
       | Some nc => Ok nc
       | None => Topology.init num_rows num_cols
       end;
  _ ← start_pos nc;
  Ok {| num_layers := num_layers;
        num_servers_per_layer := num_servers_per_layer;
        num_attack_types := num_attack_types;
        max_value := max_value;
        num_nodes := num_nodes;
        num_attack_actions := num_attack_types * num_nodes;
        num_defense_actions := (num_attack_types + 1) * num_nodes;
        num_states := num_nodes;
        network_config := nc |}.

Definition get_attack_defense_type (action : Z) (game_config : GameConfig) : result Z :=
  py_mod action (num_attack_types game_config).

Definition interpret_action (action : Z) (game_config : GameConfig)
  : result (Z * (Z * Z) * Z) :=
  server_id ← py_floordiv action (num_attack_types game_config);
  server_pos ← get_node_pos (network_config game_config) server_id;
  attack_defense_type ← get_attack_defense_type action game_config;
  Ok (server_id, server_pos, attack_defense_type).

Definition get_action_id (server_id attack_defense_type : Z)
    (game_config : GameConfig) : Z :=
  server_id * num_attack_types game_config + attack_defense_type.

Definition is_defense_id_legal (defense_id : Z) (game_config : GameConfig)
  : result bool :=
  '(server_id, server_pos, attack_type) ← interpret_action defense_id game_config;
  t1 ← py_index (node_list (network_config game_config)) server_id;
  if decide (t1 = SERVER) then Ok true
  else
    t2 ← py_index (node_list (network_config game_config)) server_id;
    if decide (t2 = DATA) then Ok true else Ok false.

(** [validate_config], on the game configuration that the (absent)
    [IdsGameConfig] wraps. *)
Definition validate_config (game_config : GameConfig) : result unit :=
  if decide (Z.of_nat (num_layers game_config) < 1) then Raise AssertionError
  else if decide (num_attack_types game_config < 1) then Raise AssertionError
  else if decide (max_value game_config < 3) then Raise AssertionError
  else Ok tt.

(** [a and b] with Python's short circuit: [b] is not evaluated (and cannot
    raise) when [a] is false. *)
Definition and_then (a b : result bool) : result bool :=
  a ≫= (fun x : bool => if x then b else Ok false).

(** The condition of the anti-cycling [if] of [is_attack_legal], for a
    history of at least four moves. *)
Definition cycle_condition (target_node_id : Z) (target_pos attacker_pos : Z * Z)
    (past_moves : list Z) : result bool :=
  middle_node ← py_index past_moves (-1);
  let '(target_row, target_col) := target_pos in
  let '(attacker_row, attacker_col) := attacker_pos in
  and_then (m2 ← py_index past_moves (-2); Ok (bool_decide (target_node_id = m2)))
 (and_then (Ok (bool_decide (target_node_id ≠ middle_node)))
 (and_then (m3 ← py_index past_moves (-3); Ok (bool_decide (middle_node = m3)))
 (and_then (m4 ← py_index past_moves (-4); Ok (bool_decide (target_node_id = m4)))
           (Ok (bool_decide (target_row > attacker_row)))))).

(** [adjacency_matrix[a][t] == int(1)] *)
Definition adjacent (network_config : NetworkConfig) (attacker_pos target_pos : Z * Z)
  : result bool :=
  let '(attacker_row, attacker_col) := attacker_pos in
  let attacker_adjacency_matrix_id :=
    attacker_row * Z.of_nat (num_cols network_config) + attacker_col in
  let '(target_row, target_col) := target_pos in
  let target_adjacency_matrix_id :=
    target_row * Z.of_nat (num_cols network_config) + target_col in
  r ← py_index (adjacency_matrix network_config) attacker_adjacency_matrix_id;
  v ← py_index r target_adjacency_matrix_id;
  Ok (bool_decide (v = 1)).

Definition is_attack_legal (target_pos attacker_pos : Z * Z)
    (network_config : NetworkConfig) (past_moves : option (list Z)) : result bool :=
  if decide (target_pos = attacker_pos) then Ok false
  else
    target_node_id ← get_node_id network_config target_pos;
    ty ← py_index (node_list network_config) target_node_id;
    if decide (ty = START) then Ok false
    else
      match past_moves with
      | Some pm =>
          if decide (4 <= length pm)%nat
          then cycle_condition target_node_id target_pos attacker_pos pm
          else Ok false
      | None => Ok false
      end ≫= fun cyc : bool =>
      if cyc then Ok false
      else adjacent network_config attacker_pos target_pos.

(** *** The anti-cycling rule in words

    [from_end pm k] is the [k]-th most recent recorded position
    ([from_end pm 0] is [past_moves[-1]]).  The rule engages once four moves
    are recorded; the last four positions form a period-2 back-and-forth
    pattern ending at the target when the target is the second and the
    fourth most recent position, the middle node (the most recent position)
    is also the third most recent one, and the target is not the middle
    node.

    Row 0, the row of the DATA node, is the top of the grid and the row of
    the START node its bottom, so a cell lies strictly below another when
    its row index is the greater one.  [anti_cycling_rejects] has the row
    test of a target strictly below the attacker;
    [spec_anti_cycling_rejects] has the row test as the specification words
    it, a target strictly above the attacker. *)
Definition from_end (pm : list Z) (k : nat) : option Z := reverse pm !! k.

Definition back_and_forth (pm : list Z) (target_node_id : Z) : Prop :=
  from_end pm 1 = Some target_node_id ∧
  from_end pm 3 = Some target_node_id ∧
  from_end pm 0 = from_end pm 2 ∧
  from_end pm 0 ≠ Some target_node_id.

Definition anti_cycling_rejects (target_node_id : Z) (target_pos attacker_pos : Z * Z)
    (past_moves : option (list Z)) : Prop :=
  match past_moves with
  | None => False
  | Some pm =>
      (4 ≤ length pm)%nat ∧ back_and_forth pm target_node_id ∧
      attacker_pos.1 < target_pos.1
  end.

#[global] Instance anti_cycling_rejects_dec id t a pm :
  Decision (anti_cycling_rejects id t a pm).
Proof. unfold anti_cycling_rejects, back_and_forth. destruct pm; apply _. Defined.

(** The self-target, START-node and adjacency rules, with the anti-cycling
    rule between the START-node rule and the adjacency rule. *)
Definition attack_rules (target_pos attacker_pos : Z * Z)
    (network_config : NetworkConfig) (past_moves : option (list Z)) : result bool :=
  if decide (target_pos = attacker_pos) then Ok false
  else
    target_node_id ← get_node_id network_config target_pos;
    ty ← py_index (node_list network_config) target_node_id;
    if decide (ty = START) then Ok false
    else if decide (anti_cycling_rejects target_node_id target_pos attacker_pos past_moves)
    then Ok false
    else adjacent network_config attacker_pos target_pos.

Definition spec_anti_cycling_rejects (target_node_id : Z)
    (target_pos attacker_pos : Z * Z) (past_moves : option (list Z)) : Prop :=
  match past_moves with
  | None => False
  | Some pm =>
      (4 ≤ length pm)%nat ∧ back_and_forth pm target_node_id ∧
      target_pos.1 < attacker_pos.1
  end.

#[global] Instance spec_anti_cycling_rejects_dec id t a pm :
  Decision (spec_anti_cycling_rejects id t a pm).
Proof. unfold spec_anti_cycling_rejects, back_and_forth. destruct pm; apply _. Defined.

Definition spec_attack_rules (target_pos attacker_pos : Z * Z)
    (network_config : NetworkConfig) (past_moves : option (list Z)) : result bool :=
  if decide (target_pos = attacker_pos) then Ok false
  else
    target_node_id ← get_node_id network_config target_pos;
    ty ← py_index (node_list network_config) target_node_id;
    if decide (ty = START) then Ok false
    else if decide (spec_anti_cycling_rejects target_node_id target_pos
                      attacker_pos past_moves)
    then Ok false
    else adjacent network_config attacker_pos target_pos.

Definition is_attack_id_legal (attack_id : Z) (game_config : GameConfig)
    (attacker_pos : Z * Z) (past_moves : option (list Z)) : result bool :=
  '(server_id, server_pos, attack_type) ← interpret_action attack_id game_config;
  is_attack_legal server_pos attacker_pos (network_config game_config) past_moves.

End Game.

(** ** ppo.py: opponent pool, rollout collection and the training loop *)

Module Trainer.

(** *** The arithmetic of the quality scores

    Quality scores are Python floats and numpy [float64] numbers.  The
    trainer is modelled over any type of scores with the operations that
    [ppo.py] applies to them, so that what is proved of a method holds
    whatever the arithmetic is: [exact] below computes with real numbers,
    [binary64] with the floating-point numbers of the code.  Rewards and
    hack probabilities, which no modelled method compares or subtracts, are
    real numbers throughout. *)
Class Arith (F : Type) : Type := {
  (** the length [N] of a pool as a float, in [N * p] *)
  f_of_nat : nat → F;
  f_sub : F → F → F;
  f_mul : F → F → F;
  f_div : F → F → F;
  (** [x > y] *)
  f_gt : F → F → bool;
  (** [scipy.special.softmax] on a list of scores: a function of the
      library, which raises on an empty list *)
  f_softmax : list F → result (list F)
}.

(** The softmax of real numbers. *)
Definition softmax (qualities : list R) : result (list R) :=
  match qualities with
  | [] => Raise ValueError
  | _ :: _ =>
      let total := foldr Rplus 0%R (exp <$> qualities) in
      Ok ((fun q => (exp q / total)%R) <$> qualities)
  end.

#[global] Instance exact : Arith R := {|
  f_of_nat := INR;
  f_sub := Rminus;
  f_mul := Rmult;
  f_div := Rdiv;
  f_gt := fun x y => if Rlt_dec y x then true else false;
  f_softmax := softmax
|}.

(** The arithmetic of the code: IEEE 754 binary64 with rounding to nearest,
    and the softmax of the library, a function [softmax] that is not under
    the sources. *)
Definition binary64 (softmax : list float → result (list float)) : Arith float := {|
  f_of_nat := fun n => PrimFloat.of_uint63 (Uint63.of_Z (Z.of_nat n));
  f_sub := PrimFloat.sub;
  f_mul := PrimFloat.mul;
  f_div := PrimFloat.div;
  f_gt := fun x y => PrimFloat.ltb y x;
  f_softmax := softmax
|}.

(** The position that index [i] denotes in a list of length [n]. *)
Definition py_position (n : nat) (i : Z) : result nat :=
  let k := if decide (i < 0) then Z.of_nat n + i else i in
  if decide (0 <= k < Z.of_nat n) then Ok (Z.to_nat k) else Raise IndexError.

(** The kind of [self.attacker_action_space]. *)
Inductive space : Set := Discrete | Box | OtherSpace.

Section trainer.
Context {score : Type} {arith : Arith score}.

(** Python's [max] on a non-empty list (it raises on an empty one): a later
    element replaces the current maximum only when it is greater. *)
Definition py_max (l : list score) : result score :=
  match l with
  | [] => Raise ValueError
  | x :: rest => Ok (foldl (fun m y => if f_gt y m then y else m) x rest)
  end.

(** Modelled from the spec: the opponent-pool configuration object (read
    through [pg_agent_config.opponent_pool_config]) is declared outside the
    sources at hand; these are the attributes [ppo.py] reads. *)
Record OpponentPoolConfig : Type := {
  pool_maxsize : Z;
  pool_increment_period : Z;
  quality_scores : bool;
  initial_quality : score;
  quality_score_eta : score
}.

(** Modelled from the spec: [PolicyGradientAgentConfig] is declared outside
    the sources at hand; these are the attributes [ppo.py] reads in the
    modelled methods. *)
Record PolicyGradientAgentConfig : Type := {
  attacker : bool;
  defender : bool;
  alternating_optimization : bool;
  alternating_period : Z;
  opponent_pool : bool;
  opponent_pool_config : option OpponentPoolConfig;
  train_log_frequency : Z;
  checkpoint_freq : Z
}.

Context {policy bot tensor : Type}.

(** An opponent is a frozen [PPOPolicy] or a scripted bot. *)
Inductive opponent : Type :=
| PolicyOpponent (p : policy)
| BotOpponent (b : bot).

(** A pool entry is the list [[model, quality]] when quality scoring is on
    and the bare model otherwise. *)
Inductive pool_entry : Type :=
| Scored (o : opponent) (q : score)
| Bare (o : opponent).

(** The value of [attacker_actions] or [defender_actions]: the default
    Python list [[0]] or a numpy array. *)
Inductive actions : Type :=
| PyList0
| NdArray (a : tensor).

(** One row of a [RolloutBuffer]. *)
Record transition : Type := mkTransition {
  tr_obs : tensor;
  tr_action : actions;
  tr_reward : R;
  tr_done : bool;
  tr_value : tensor;
  tr_log_prob : tensor
}.

(** The attributes of the [PPO] object that the modelled methods read or
    write.  [attacker_opponent] and [defender_opponent] hold whatever
    [pool[idx]] or [pool[idx][0]] was; [None] stands for an attribute that
    has not been assigned. *)
#[projections(primitive)] Record PPO : Type := mkPPO {
  attacker_policy : policy;
  defender_policy : policy;
  attacker_pool : list pool_entry;
  defender_pool : list pool_entry;
  attacker_opponent : option pool_entry;
  defender_opponent : option pool_entry;
  attacker_opponent_idx : option Z;
  defender_opponent_idx : option Z;
  train_attacker : bool;
  train_defender : bool;
  attacker_rollout_buffer : list transition;
  defender_rollout_buffer : list transition;
  last_obs_a : tensor;
  last_obs_d : tensor;
  num_timesteps : Z;
  iteration : Z;
  num_train_games : Z;
  num_train_hacks : Z;
  num_train_games_total : Z;
  num_train_hacks_total : Z;
  train_hack_probability : R;
  train_cumulative_hack_probability : R
}.

Definition set_attacker_policy (v : policy) (self : PPO) : PPO :=
  let '(mkPPO _ x2 x3 x4 x5 x6 x7 x8 x9 x10 x11 x12 x13 x14 x15 x16 x17 x18
    x19 x20 x21 x22) := self in
  mkPPO v x2 x3 x4 x5 x6 x7 x8 x9 x10 x11 x12 x13 x14 x15 x16 x17 x18 x19 x20
    x21 x22.

Definition set_defender_policy (v : policy) (self : PPO) : PPO :=
  let '(mkPPO x1 _ x3 x4 x5 x6 x7 x8 x9 x10 x11 x12 x13 x14 x15 x16 x17 x18
    x19 x20 x21 x22) := self in
  mkPPO x1 v x3 x4 x5 x6 x7 x8 x9 x10 x11 x12 x13 x14 x15 x16 x17 x18 x19 x20
    x21 x22.

Definition set_attacker_pool (v : list pool_entry) (self : PPO) : PPO :=
  let '(mkPPO x1 x2 _ x4 x5 x6 x7 x8 x9 x10 x11 x12 x13 x14 x15 x16 x17 x18
    x19 x20 x21 x22) := self in
  mkPPO x1 x2 v x4 x5 x6 x7 x8 x9 x10 x11 x12 x13 x14 x15 x16 x17 x18 x19 x20
    x21 x22.

Definition set_defender_pool (v : list pool_entry) (self : PPO) : PPO :=
  let '(mkPPO x1 x2 x3 _ x5 x6 x7 x8 x9 x10 x11 x12 x13 x14 x15 x16 x17 x18
    x19 x20 x21 x22) := self in
  mkPPO x1 x2 x3 v x5 x6 x7 x8 x9 x10 x11 x12 x13 x14 x15 x16 x17 x18 x19 x20
    x21 x22.

Definition set_attacker_opponent (v : option pool_entry) (self : PPO) : PPO :=
  let '(mkPPO x1 x2 x3 x4 _ x6 x7 x8 x9 x10 x11 x12 x13 x14 x15 x16 x17 x18
    x19 x20 x21 x22) := self in
  mkPPO x1 x2 x3 x4 v x6 x7 x8 x9 x10 x11 x12 x13 x14 x15 x16 x17 x18 x19 x20
    x21 x22.

Definition set_defender_opponent (v : option pool_entry) (self : PPO) : PPO :=
  let '(mkPPO x1 x2 x3 x4 x5 _ x7 x8 x9 x10 x11 x12 x13 x14 x15 x16 x17 x18
    x19 x20 x21 x22) := self in
  mkPPO x1 x2 x3 x4 x5 v x7 x8 x9 x10 x11 x12 x13 x14 x15 x16 x17 x18 x19 x20
    x21 x22.

Definition set_attacker_opponent_idx (v : option Z) (self : PPO) : PPO :=
  let '(mkPPO x1 x2 x3 x4 x5 x6 _ x8 x9 x10 x11 x12 x13 x14 x15 x16 x17 x18
    x19 x20 x21 x22) := self in
  mkPPO x1 x2 x3 x4 x5 x6 v x8 x9 x10 x11 x12 x13 x14 x15 x16 x17 x18 x19 x20
    x21 x22.

Definition set_defender_opponent_idx (v : option Z) (self : PPO) : PPO :=
  let '(mkPPO x1 x2 x3 x4 x5 x6 x7 _ x9 x10 x11 x12 x13 x14 x15 x16 x17 x18
    x19 x20 x21 x22) := self in
  mkPPO x1 x2 x3 x4 x5 x6 x7 v x9 x10 x11 x12 x13 x14 x15 x16 x17 x18 x19 x20
    x21 x22.

Definition set_train_attacker (v : bool) (self : PPO) : PPO :=
  let '(mkPPO x1 x2 x3 x4 x5 x6 x7 x8 _ x10 x11 x12 x13 x14 x15 x16 x17 x18
    x19 x20 x21 x22) := self in
  mkPPO x1 x2 x3 x4 x5 x6 x7 x8 v x10 x11 x12 x13 x14 x15 x16 x17 x18 x19 x20
    x21 x22.

Definition set_train_defender (v : bool) (self : PPO) : PPO :=
  let '(mkPPO x1 x2 x3 x4 x5 x6 x7 x8 x9 _ x11 x12 x13 x14 x15 x16 x17 x18 x19
    x20 x21 x22) := self in
  mkPPO x1 x2 x3 x4 x5 x6 x7 x8 x9 v x11 x12 x13 x14 x15 x16 x17 x18 x19 x20
    x21 x22.

Definition set_attacker_rollout_buffer (v : list transition) (self : PPO) : PPO :=
  let '(mkPPO x1 x2 x3 x4 x5 x6 x7 x8 x9 x10 _ x12 x13 x14 x15 x16 x17 x18 x19
    x20 x21 x22) := self in
  mkPPO x1 x2 x3 x4 x5 x6 x7 x8 x9 x10 v x12 x13 x14 x15 x16 x17 x18 x19 x20
    x21 x22.

Definition set_defender_rollout_buffer (v : list transition) (self : PPO) : PPO :=
  let '(mkPPO x1 x2 x3 x4 x5 x6 x7 x8 x9 x10 x11 _ x13 x14 x15 x16 x17 x18 x19
    x20 x21 x22) := self in
  mkPPO x1 x2 x3 x4 x5 x6 x7 x8 x9 x10 x11 v x13 x14 x15 x16 x17 x18 x19 x20
    x21 x22.

Definition set_last_obs_a (v : tensor) (self : PPO) : PPO :=
  let '(mkPPO x1 x2 x3 x4 x5 x6 x7 x8 x9 x10 x11 x12 _ x14 x15 x16 x17 x18 x19
    x20 x21 x22) := self in
  mkPPO x1 x2 x3 x4 x5 x6 x7 x8 x9 x10 x11 x12 v x14 x15 x16 x17 x18 x19 x20
    x21 x22.

Definition set_last_obs_d (v : tensor) (self : PPO) : PPO :=
  let '(mkPPO x1 x2 x3 x4 x5 x6 x7 x8 x9 x10 x11 x12 x13 _ x15 x16 x17 x18 x19
    x20 x21 x22) := self in
  mkPPO x1 x2 x3 x4 x5 x6 x7 x8 x9 x10 x11 x12 x13 v x15 x16 x17 x18 x19 x20
    x21 x22.

Definition set_num_timesteps (v : Z) (self : PPO) : PPO :=
  let '(mkPPO x1 x2 x3 x4 x5 x6 x7 x8 x9 x10 x11 x12 x13 x14 _ x16 x17 x18 x19
    x20 x21 x22) := self in
  mkPPO x1 x2 x3 x4 x5 x6 x7 x8 x9 x10 x11 x12 x13 x14 v x16 x17 x18 x19 x20
    x21 x22.

Definition set_iteration (v : Z) (self : PPO) : PPO :=
  let '(mkPPO x1 x2 x3 x4 x5 x6 x7 x8 x9 x10 x11 x12 x13 x14 x15 _ x17 x18 x19
    x20 x21 x22) := self in
  mkPPO x1 x2 x3 x4 x5 x6 x7 x8 x9 x10 x11 x12 x13 x14 x15 v x17 x18 x19 x20
    x21 x22.

Definition set_num_train_games (v : Z) (self : PPO) : PPO :=
  let '(mkPPO x1 x2 x3 x4 x5 x6 x7 x8 x9 x10 x11 x12 x13 x14 x15 x16 _ x18 x19
    x20 x21 x22) := self in
  mkPPO x1 x2 x3 x4 x5 x6 x7 x8 x9 x10 x11 x12 x13 x14 x15 x16 v x18 x19 x20
    x21 x22.

Definition set_num_train_hacks (v : Z) (self : PPO) : PPO :=
  let '(mkPPO x1 x2 x3 x4 x5 x6 x7 x8 x9 x10 x11 x12 x13 x14 x15 x16 x17 _ x19
    x20 x21 x22) := self in
  mkPPO x1 x2 x3 x4 x5 x6 x7 x8 x9 x10 x11 x12 x13 x14 x15 x16 x17 v x19 x20
    x21 x22.

Definition set_num_train_games_total (v : Z) (self : PPO) : PPO :=
  let '(mkPPO x1 x2 x3 x4 x5 x6 x7 x8 x9 x10 x11 x12 x13 x14 x15 x16 x17 x18 _
    x20 x21 x22) := self in
  mkPPO x1 x2 x3 x4 x5 x6 x7 x8 x9 x10 x11 x12 x13 x14 x15 x16 x17 x18 v x20
    x21 x22.

Definition set_num_train_hacks_total (v : Z) (self : PPO) : PPO :=
  let '(mkPPO x1 x2 x3 x4 x5 x6 x7 x8 x9 x10 x11 x12 x13 x14 x15 x16 x17 x18
    x19 _ x21 x22) := self in
  mkPPO x1 x2 x3 x4 x5 x6 x7 x8 x9 x10 x11 x12 x13 x14 x15 x16 x17 x18 x19 v
    x21 x22.

Definition set_train_hack_probability (v : R) (self : PPO) : PPO :=
  let '(mkPPO x1 x2 x3 x4 x5 x6 x7 x8 x9 x10 x11 x12 x13 x14 x15 x16 x17 x18
    x19 x20 _ x22) := self in
  mkPPO x1 x2 x3 x4 x5 x6 x7 x8 x9 x10 x11 x12 x13 x14 x15 x16 x17 x18 x19 x20
    v x22.

Definition set_train_cumulative_hack_probability (v : R) (self : PPO) : PPO :=
  let '(mkPPO x1 x2 x3 x4 x5 x6 x7 x8 x9 x10 x11 x12 x13 x14 x15 x16 x17 x18
    x19 x20 x21 _) := self in
  mkPPO x1 x2 x3 x4 x5 x6 x7 x8 x9 x10 x11 x12 x13 x14 x15 x16 x17 x18 x19 x20
    x21 v.

(** *** The state-and-exception monad of the trainer

    A method call takes the object to an outcome and the object as the call
    left it: attribute writes made before an exception stay. *)
Definition M (A : Type) : Type := PPO → result A * PPO.

#[global] Instance M_ret : MRet M := fun _ a self => (Ok a, self).

#[global] Instance M_bind : MBind M := fun _ _ f m self =>
  match m self with
  | (Ok a, self') => f a self'
  | (Raise e, self') => (Raise e, self')
  end.

Definition get : M PPO := fun self => (Ok self, self).
Definition modify (f : PPO → PPO) : M unit := fun self => (Ok tt, f self).
Definition raise {A} (e : exn) : M A := fun self => (Raise e, self).
Definition lift {A} (r : result A) : M A := fun self => (r, self).
Definition when (b : bool) (m : M unit) : M unit := if b then m else mret tt.

(** *** The opponent pool *)

Definition pool_of (for_attacker : bool) (self : PPO) : list pool_entry :=
  if for_attacker then attacker_pool self else defender_pool self.

Definition set_pool (for_attacker : bool) (pool : list pool_entry) : PPO → PPO :=
  if for_attacker then set_attacker_pool pool else set_defender_pool pool.

Definition policy_of (for_attacker : bool) (self : PPO) : policy :=
  if for_attacker then attacker_policy self else defender_policy self.

(** [x[1]] for a pool entry [x]. *)
Definition entry_quality (x : pool_entry) : result score :=
  match x with
  | Scored _ q => Ok q
  | Bare _ => Raise TypeError
  end.

(** The quality scores that the entries of a pool carry. *)
Definition entry_scores (pool : list pool_entry) : list score :=
  omap (fun x => match x with Scored _ q => Some q | Bare _ => None end) pool.

Definition scored (x : pool_entry) : Prop :=
  match x with Scored _ _ => True | Bare _ => False end.


(** [get_attacker_pool_quality_scores] and
    [get_defender_pool_quality_scores]. *)
Definition get_pool_quality_scores (for_attacker : bool) : M (list score) :=
  self ← get; lift (mapM entry_quality (pool_of for_attacker self)).

Definition get_softmax_distribution (qualities : list score)
  : result (list score) :=
  f_softmax qualities.

(** [self.pg_agent_config.opponent_pool_config.<attribute>] where the code
    reads it without checking for [None]. *)
Definition pool_config_attr (cfg : PolicyGradientAgentConfig) : M OpponentPoolConfig :=
  match opponent_pool_config cfg with
  | Some c => mret c
  | None => raise AttributeError
  end.

(** [pool.pop(0)] *)
Definition pool_pop_0 (for_attacker : bool) : M unit :=
  self ← get;
  match pool_of for_attacker self with
  | [] => raise IndexError
  | _ :: rest => modify (set_pool for_attacker rest)
  end.

(** [pool.append(x)] *)
Definition pool_append (for_attacker : bool) (x : pool_entry) : M unit :=
  modify (fun self => set_pool for_attacker (pool_of for_attacker self ++ [x]) self).

(** [add_model_to_pool].  The attacker and the defender branch of the code
    are the same text on the two pools; [copy.deepcopy] of a policy is the
    policy value itself. *)
Definition add_model_to_pool (cfg : PolicyGradientAgentConfig)
    (for_attacker : bool) : M unit :=
  match opponent_pool cfg, opponent_pool_config cfg with
  | true, Some opc =>
      self ← get;
      let model_copy := PolicyOpponent (policy_of for_attacker self) in
      when (bool_decide (Z.of_nat (length (pool_of for_attacker self))
                         >= pool_maxsize opc))
           (pool_pop_0 for_attacker);;
      if quality_scores opc then
        self ← get;
        if decide (length (pool_of for_attacker self) = 0)%nat then
          pool_append for_attacker (Scored model_copy (initial_quality opc))
        else
          qualities ← get_pool_quality_scores for_attacker;
          max_q ← lift (py_max qualities);
          pool_append for_attacker (Scored model_copy max_q)
      else
        pool_append for_attacker (Bare model_copy)
  | _, _ => mret tt
  end.

(** [update_quality_score].  The attacker and the defender branch of the
    code are the same text on the two pools.  The right-hand side of the
    assignment reads [pool[idx][1]] and then the configuration; the division
    is numpy's, which does not raise. *)
Definition update_quality_score (cfg : PolicyGradientAgentConfig)
    (opponent_idx : Z) (for_attacker : bool) : M unit :=
  self ← get;
  let N := length (pool_of for_attacker self) in
  qualities ← get_pool_quality_scores for_attacker;
  dist ← lift (get_softmax_distribution qualities);
  p ← lift (py_index dist opponent_idx);
  x ← lift (py_index (pool_of for_attacker self) opponent_idx);
  q ← lift (entry_quality x);
  opc ← pool_config_attr cfg;
  k ← lift (py_position N opponent_idx);
  match x with
  | Scored o _ =>
      modify (set_pool for_attacker
                (<[k := Scored o
                          (f_sub q (f_div (quality_score_eta opc)
                                          (f_mul (f_of_nat N) p)))]>
                   (pool_of for_attacker self)))
  | Bare _ => raise TypeError
  end.

(** [sample_opponent].  The index comes from [np.random.choice] of the
    library, over [range(len(pool))]: [draw] stands for the choice that the
    generator makes, which is an index of the pool; on an empty pool the
    library raises.  With quality scoring the code hands the softmax of the
    scores to the generator as the probability vector; of that only the
    reading of the scores is modelled, and a probability vector that the
    generator refuses (NaN entries, a sum away from 1) is not. *)
Definition sample_opponent (cfg : PolicyGradientAgentConfig)
    (for_attacker : bool) (draw : nat) : M Z :=
  opc ← pool_config_attr cfg;
  (if quality_scores opc
   then get_pool_quality_scores for_attacker ≫= fun _ => mret tt
   else mret tt);;
  self ← get;
  match length (pool_of for_attacker self) with
  | O => raise ValueError
  | S n => mret (Z.of_nat (draw `mod` S n))
  end.

(** [pool[idx][0]] with quality scoring, [pool[idx]] without. *)
Definition pool_member (cfg : PolicyGradientAgentConfig) (for_attacker : bool)
    (idx : Z) : M pool_entry :=
  opc ← pool_config_attr cfg;
  self ← get;
  x ← lift (py_index (pool_of for_attacker self) idx);
  if quality_scores opc then
    match x with
    | Scored o _ => mret (Bare o)
    | Bare _ => raise TypeError
    end
  else mret x.

(** *** collect_rollouts *)

(** The local variables of [collect_rollouts]; [None] is a variable that is
    not bound yet. *)
#[projections(primitive)] Record locals : Type := mkLocals {
  n_steps : Z;
  attacker_actions : actions;
  defender_actions : actions;
  attacker_values : option tensor;
  attacker_log_probs : option tensor;
  defender_values : option tensor;
  defender_log_probs : option tensor;
  dones : option bool;
  episode_attacker_rewards : list R;
  episode_defender_rewards : list R;
  episode_steps : list Z;
  episode_attacker_reward : R;
  episode_defender_reward : R;
  episode_step : Z
}.

Definition with_n_steps (v : Z) (L : locals) : locals :=
  let '(mkLocals _ x2 x3 x4 x5 x6 x7 x8 x9 x10 x11 x12 x13 x14) := L in
  mkLocals v x2 x3 x4 x5 x6 x7 x8 x9 x10 x11 x12 x13 x14.

Definition with_attacker_actions (v : actions) (L : locals) : locals :=
  let '(mkLocals x1 _ x3 x4 x5 x6 x7 x8 x9 x10 x11 x12 x13 x14) := L in
  mkLocals x1 v x3 x4 x5 x6 x7 x8 x9 x10 x11 x12 x13 x14.

Definition with_defender_actions (v : actions) (L : locals) : locals :=
  let '(mkLocals x1 x2 _ x4 x5 x6 x7 x8 x9 x10 x11 x12 x13 x14) := L in
  mkLocals x1 x2 v x4 x5 x6 x7 x8 x9 x10 x11 x12 x13 x14.

Definition with_attacker_values (v : option tensor) (L : locals) : locals :=
  let '(mkLocals x1 x2 x3 _ x5 x6 x7 x8 x9 x10 x11 x12 x13 x14) := L in
  mkLocals x1 x2 x3 v x5 x6 x7 x8 x9 x10 x11 x12 x13 x14.

Definition with_attacker_log_probs (v : option tensor) (L : locals) : locals :=
  let '(mkLocals x1 x2 x3 x4 _ x6 x7 x8 x9 x10 x11 x12 x13 x14) := L in
  mkLocals x1 x2 x3 x4 v x6 x7 x8 x9 x10 x11 x12 x13 x14.

Definition with_defender_values (v : option tensor) (L : locals) : locals :=
  let '(mkLocals x1 x2 x3 x4 x5 _ x7 x8 x9 x10 x11 x12 x13 x14) := L in
  mkLocals x1 x2 x3 x4 x5 v x7 x8 x9 x10 x11 x12 x13 x14.

Definition with_defender_log_probs (v : option tensor) (L : locals) : locals :=
  let '(mkLocals x1 x2 x3 x4 x5 x6 _ x8 x9 x10 x11 x12 x13 x14) := L in
  mkLocals x1 x2 x3 x4 x5 x6 v x8 x9 x10 x11 x12 x13 x14.

Definition with_dones (v : option bool) (L : locals) : locals :=
  let '(mkLocals x1 x2 x3 x4 x5 x6 x7 _ x9 x10 x11 x12 x13 x14) := L in
  mkLocals x1 x2 x3 x4 x5 x6 x7 v x9 x10 x11 x12 x13 x14.

Definition with_episode_attacker_rewards (v : list R) (L : locals) : locals :=
  let '(mkLocals x1 x2 x3 x4 x5 x6 x7 x8 _ x10 x11 x12 x13 x14) := L in
  mkLocals x1 x2 x3 x4 x5 x6 x7 x8 v x10 x11 x12 x13 x14.

Definition with_episode_defender_rewards (v : list R) (L : locals) : locals :=
  let '(mkLocals x1 x2 x3 x4 x5 x6 x7 x8 x9 _ x11 x12 x13 x14) := L in
  mkLocals x1 x2 x3 x4 x5 x6 x7 x8 x9 v x11 x12 x13 x14.

Definition with_episode_steps (v : list Z) (L : locals) : locals :=
  let '(mkLocals x1 x2 x3 x4 x5 x6 x7 x8 x9 x10 _ x12 x13 x14) := L in
  mkLocals x1 x2 x3 x4 x5 x6 x7 x8 x9 x10 v x12 x13 x14.

Definition with_episode_attacker_reward (v : R) (L : locals) : locals :=
  let '(mkLocals x1 x2 x3 x4 x5 x6 x7 x8 x9 x10 x11 _ x13 x14) := L in
  mkLocals x1 x2 x3 x4 x5 x6 x7 x8 x9 x10 x11 v x13 x14.

Definition with_episode_defender_reward (v : R) (L : locals) : locals :=
  let '(mkLocals x1 x2 x3 x4 x5 x6 x7 x8 x9 x10 x11 x12 _ x14) := L in
  mkLocals x1 x2 x3 x4 x5 x6 x7 x8 x9 x10 x11 x12 v x14.

Definition with_episode_step (v : Z) (L : locals) : locals :=
  let '(mkLocals x1 x2 x3 x4 x5 x6 x7 x8 x9 x10 x11 x12 x13 _) := L in
  mkLocals x1 x2 x3 x4 x5 x6 x7 x8 x9 x10 x11 x12 x13 v.

(** What the world outside the trainer answers during one pass of the loop
    of [collect_rollouts]: the outputs of the policies and bots, the
    environment's step, the callback, and the random generator. *)
Record step_world : Type := {
  w_attacker_forward : tensor * tensor * tensor;
  w_defender_forward : tensor * tensor * tensor;
  w_attacker_opponent_forward : tensor * tensor * tensor;
  w_defender_opponent_forward : tensor * tensor * tensor;
  w_attacker_bot_action : tensor;
  w_defender_bot_action : tensor;
  w_new_a_obs : tensor;
  w_new_d_obs : tensor;
  w_a_rewards : R;
  w_d_rewards : R;
  w_dones : bool;
  w_prev_episode_hacked : bool;
  (** [callback.on_step()] did not return [False] *)
  w_on_step : bool;
  (** [np.random.rand() < pool_prob], for the defender's and the attacker's
      opponent *)
  w_resample_defender_opponent : bool;
  w_resample_attacker_opponent : bool;
  w_draw_defender_opponent : nat;
  w_draw_attacker_opponent : nat
}.

Definition initial_locals : locals :=
  mkLocals 0 PyList0 PyList0 None None None None None [] [] [] 0%R 0%R 0.

(** Reading a local variable that may be unbound. *)
Definition bound {A} (x : option A) : M A :=
  match x with
  | Some a => mret a
  | None => raise UnboundLocalError
  end.

Definition pool_mode (cfg : PolicyGradientAgentConfig) : bool :=
  alternating_optimization cfg && opponent_pool cfg.

(** Reading [self.defender_opponent] or [self.attacker_opponent]. *)
Definition opponent_attr (for_attacker : bool) : M pool_entry :=
  self ← get;
  match (if for_attacker then attacker_opponent self else defender_opponent self) with
  | Some x => mret x
  | None => raise AttributeError
  end.

(** [isinstance(x, PPOPolicy)] *)
Definition is_PPOPolicy (x : pool_entry) : bool :=
  match x with
  | Bare (PolicyOpponent _) => true
  | _ => false
  end.

(** [x.forward(...)]: only a policy has the method. *)
Definition opponent_forward (x : pool_entry) (out : tensor * tensor * tensor)
  : M (tensor * tensor * tensor) :=
  match x with
  | Bare (PolicyOpponent _) => mret out
  | _ => raise AttributeError
  end.

(** [x.action(...)]: only a bot has the method. *)
Definition opponent_action (x : pool_entry) (out : tensor) : M tensor :=
  match x with
  | Bare (BotOpponent _) => mret out
  | _ => raise AttributeError
  end.

(** Lines 282-315: the actions of the two sides for this step. *)
Definition choose_actions (cfg : PolicyGradientAgentConfig) (w : step_world)
    (L : locals) : M locals :=
  self ← get;
  let L := with_defender_actions PyList0 (with_attacker_actions PyList0 L) in
  L ← (if attacker cfg && train_attacker self then
         let '(a, v, lp) := w_attacker_forward w in
         let L := with_attacker_log_probs (Some lp)
                    (with_attacker_values (Some v)
                       (with_attacker_actions (NdArray a) L)) in
         if pool_mode cfg then
           opp ← opponent_attr false;
           if is_PPOPolicy opp then
             '(a, v, lp) ← opponent_forward opp (w_defender_opponent_forward w);
             mret (with_defender_log_probs (Some lp)
                     (with_defender_values (Some v)
                        (with_defender_actions (NdArray a) L)))
           else
             action ← opponent_action opp (w_defender_bot_action w);
             mret (with_defender_actions (NdArray action) L)
         else mret L
       else mret L);
  if defender cfg && train_defender self then
    let '(a, v, lp) := w_defender_forward w in
    let L := with_defender_log_probs (Some lp)
               (with_defender_values (Some v)
                  (with_defender_actions (NdArray a) L)) in
    if pool_mode cfg then
      opp_d ← opponent_attr false;
      if is_PPOPolicy opp_d then
        opp ← opponent_attr true;
        '(a, v, lp) ← opponent_forward opp (w_attacker_opponent_forward w);
        mret (with_attacker_log_probs (Some lp)
                (with_attacker_values (Some v)
                   (with_attacker_actions (NdArray a) L)))
      else
        opp ← opponent_attr true;
        action ← opponent_action opp (w_attacker_bot_action w);
        mret (with_attacker_actions (NdArray action) L)
    else mret L
  else mret L.

(** [actions.reshape(-1, 1)]: a Python list has no such method. *)
Definition reshape (a : actions) : M actions :=
  match a with
  | NdArray t => mret (NdArray t)
  | PyList0 => raise AttributeError
  end.

(** Lines 340-345. *)
Definition reshape_actions (cfg : PolicyGradientAgentConfig)
    (attacker_action_space : space) (L : locals) : M locals :=
  match attacker_action_space with
  | Discrete =>
      L ← (if attacker cfg
           then a ← reshape (attacker_actions L); mret (with_attacker_actions a L)
           else mret L);
      if defender cfg
      then a ← reshape (defender_actions L); mret (with_defender_actions a L)
      else mret L
  | _ => mret L
  end.

(** [rollout_buffer.add(obs, actions, reward, done, values, log_probs)]:
    the arguments are read from left to right, then the buffer of the
    external library stores the row.  The buffer class is outside the
    sources; the model keeps the rows it has been given as a list and does
    not represent the capacity that the library's buffer is built with. *)
Definition buffer_add (for_attacker : bool) (obs : tensor) (a : actions)
    (reward : R) (done : bool) (value log_prob : option tensor) : M unit :=
  v ← bound value;
  lp ← bound log_prob;
  modify (fun self =>
    if for_attacker
    then set_attacker_rollout_buffer
           (attacker_rollout_buffer self ++ [mkTransition obs a reward done v lp]) self
    else set_defender_rollout_buffer
           (defender_rollout_buffer self ++ [mkTransition obs a reward done v lp]) self).

(** Lines 347-361: the rows added to the two buffers. *)
Definition add_to_buffers (cfg : PolicyGradientAgentConfig) (w : step_world)
    (L : locals) : M unit :=
  self ← get;
  when (attacker cfg)
    (if pool_mode cfg then
       when (train_attacker self)
         (buffer_add true (last_obs_a self) (attacker_actions L) (w_a_rewards w)
            (w_dones w) (attacker_values L) (attacker_log_probs L))
     else
       buffer_add true (last_obs_a self) (attacker_actions L) (w_a_rewards w)
         (w_dones w) (attacker_values L) (attacker_log_probs L));;
  when (defender cfg)
    (if pool_mode cfg then
       when (train_defender self)
         (buffer_add false (last_obs_d self) (defender_actions L) (w_d_rewards w)
            (w_dones w) (defender_values L) (defender_log_probs L))
     else
       buffer_add false (last_obs_d self) (defender_actions L) (w_d_rewards w)
         (w_dones w) (defender_values L) (defender_log_probs L)).

(** Lines 366-371: the episode and hack counters. *)
Definition record_episode (w : step_world) : M unit :=
  modify (fun self => set_num_train_games (num_train_games self + 1) self);;
  modify (fun self => set_num_train_games_total (num_train_games_total self + 1) self);;
  when (w_prev_episode_hacked w)
    (modify (fun self => set_num_train_hacks (num_train_hacks self + 1) self);;
     modify (fun self => set_num_train_hacks_total (num_train_hacks_total self + 1) self)).

(** Lines 379-385: the quality scores of the opponents. *)
Definition update_pool_qualities (cfg : PolicyGradientAgentConfig)
    (w : step_world) : M unit :=
  match opponent_pool cfg, opponent_pool_config cfg with
  | true, Some opc =>
      when (quality_scores opc)
        (self ← get;
         match train_attacker self, defender_opponent_idx self, w_prev_episode_hacked w with
         | true, Some idx, true => update_quality_score cfg idx false
         | _, _, _ => mret tt
         end;;
         self ← get;
         match train_defender self, attacker_opponent_idx self, w_prev_episode_hacked w with
         | true, Some idx, false => update_quality_score cfg idx true
         | _, _, _ => mret tt
         end)
  | _, _ => mret tt
  end.

(** Lines 387-403: new opponents for the next episode. *)
Definition resample_opponents (cfg : PolicyGradientAgentConfig)
    (w : step_world) : M unit :=
  when (pool_mode cfg)
    (self ← get;
     when (attacker cfg && train_attacker self)
       (_ ← pool_config_attr cfg;
        when (w_resample_defender_opponent w)
          (idx ← sample_opponent cfg false (w_draw_defender_opponent w);
           modify (set_defender_opponent_idx (Some idx));;
           x ← pool_member cfg false idx;
           modify (set_defender_opponent (Some x))));;
     self ← get;
     when (defender cfg && train_defender self)
       (_ ← pool_config_attr cfg;
        when (w_resample_attacker_opponent w)
          (idx ← sample_opponent cfg true (w_draw_attacker_opponent w);
           modify (set_attacker_opponent_idx (Some idx));;
           x ← pool_member cfg true idx;
           modify (set_attacker_opponent (Some x))))).

(** One pass of the [while] loop; [None] is the early [return False].  The
    resampling of the exploration noise of the policies and the info buffer
    of the base class touch none of the modelled attributes. *)
Definition rollout_step (cfg : PolicyGradientAgentConfig)
    (attacker_action_space : space) (num_envs : Z) (w : step_world)
    (L : locals) : M (option locals) :=
  L ← choose_actions cfg w L;
  (* env.step(joint_actions) answers with the world's step *)
  let L := with_dones (Some (w_dones w)) L in
  if negb (w_on_step w) then mret None
  else
    modify (fun self => set_num_timesteps (num_timesteps self + num_envs) self);;
    let L := with_episode_step (episode_step L + 1)
               (with_episode_defender_reward (episode_defender_reward L + w_d_rewards w)%R
                  (with_episode_attacker_reward (episode_attacker_reward L + w_a_rewards w)%R
                     (with_n_steps (n_steps L + 1) L))) in
    L ← reshape_actions cfg attacker_action_space L;
    add_to_buffers cfg w L;;
    modify (set_last_obs_a (w_new_a_obs w));;
    modify (set_last_obs_d (w_new_d_obs w));;
    if w_dones w then
      record_episode w;;
      let L := with_episode_step 0
                 (with_episode_defender_reward 0%R
                    (with_episode_attacker_reward 0%R
                       (with_episode_steps (episode_steps L ++ [episode_step L])
                          (with_episode_defender_rewards
                             (episode_defender_rewards L ++ [episode_defender_reward L])
                             (with_episode_attacker_rewards
                                (episode_attacker_rewards L ++ [episode_attacker_reward L])
                                L))))) in
      update_pool_qualities cfg w;;
      resample_opponents cfg w;;
      mret (Some L)
    else mret (Some L).

(** The [while n_steps < n_rollout_steps] loop: [n_steps] starts at 0 and
    grows by one in each pass that neither returns nor raises, so the loop
    makes [remaining] passes when entered with that many steps to go; [k]
    numbers the passes for the world. *)
Fixpoint rollout_loop (cfg : PolicyGradientAgentConfig)
    (attacker_action_space : space) (num_envs : Z) (world : nat → step_world)
    (remaining k : nat) (L : locals) : M (option locals) :=
  match remaining with
  | O => mret (Some L)
  | S remaining =>
      r ← rollout_step cfg attacker_action_space num_envs (world k) L;
      match r with
      | None => mret None
      | Some L => rollout_loop cfg attacker_action_space num_envs world
                    remaining (S k) L
      end
  end.

(** What [collect_rollouts] returns: the bare [False] of the early return or
    the tuple that starts with [True]. *)
Inductive rollout_result : Type :=
| Aborted
| Completed (episode_attacker_rewards episode_defender_rewards : list R)
            (episode_steps : list Z).

(** [rollout_buffer.compute_returns_and_advantage(values, dones=dones)]
    fills the return and advantage columns of the external buffer; here it
    only reads its two arguments. *)
Definition compute_returns_and_advantage (values : option tensor)
    (dones : option bool) : M unit :=
  _ ← bound values; _ ← bound dones; mret tt.

(** [collect_rollouts].  The trainer of the model always holds the last
    observations ([last_obs_a] and [last_obs_d] are values, not options):
    it is the trainer after [_setup_learn], on which the two assertions that
    open the method pass. *)
Definition collect_rollouts (cfg : PolicyGradientAgentConfig)
    (attacker_action_space : space) (num_envs : Z) (world : nat → step_world)
    (n_rollout_steps : Z) : M rollout_result :=
  when (attacker cfg) (modify (set_attacker_rollout_buffer []));;
  when (defender cfg) (modify (set_defender_rollout_buffer []));;
  r ← rollout_loop cfg attacker_action_space num_envs world
        (Z.to_nat n_rollout_steps) 0 initial_locals;
  match r with
  | None => mret Aborted
  | Some L =>
      when (attacker cfg)
        (compute_returns_and_advantage (attacker_values L) (dones L));;
      when (defender cfg)
        (compute_returns_and_advantage (defender_values L) (dones L));;
      mret (Completed (episode_attacker_rewards L) (episode_defender_rewards L)
              (episode_steps L))
  end.

(** *** learn *)

(** The local counters of [learn]; each is bound only under the condition
    under which the code initialises it. *)
Record learn_locals : Type := mkLearnLocals {
  attacker_pool_iteration : option Z;
  defender_pool_iteration : option Z;
  optimization_iteration : option Z
}.

Definition initial_learn_locals (cfg : PolicyGradientAgentConfig) : learn_locals :=
  let pool := match opponent_pool cfg, opponent_pool_config cfg with
              | true, Some _ => Some 0
              | _, _ => None
              end in
  mkLearnLocals pool pool (if alternating_optimization cfg then Some 0 else None).

(** What the world answers during one pass of the loop of [learn]: the
    rollout, and the policies as the gradient steps of [train] leave
    them. *)
Record iteration_world : Type := {
  w_rollout : nat → step_world;
  w_trained_attacker_policy : policy;
  w_trained_defender_policy : policy
}.

(** Integer division for the two hack probabilities. *)
Definition ratio (a b : Z) : R := (IZR a / IZR b)%R.

(** Lines 601-630: the two hack probabilities of the reporting interval,
    then the reset of the window counters.  [log_metrics] of the base class,
    called in between, reads the two probabilities and writes none of the
    modelled attributes. *)
Definition log_hack_probabilities : M unit :=
  self ← get;
  (if decide (num_train_games self > 0 ∧ num_train_games_total self > 0) then
     modify (set_train_hack_probability
               (ratio (num_train_hacks self) (num_train_games self)));;
     modify (set_train_cumulative_hack_probability
               (ratio (num_train_hacks_total self) (num_train_games_total self)))
   else
     modify (set_train_hack_probability 0%R);;
     modify (set_train_cumulative_hack_probability 0%R));;
  modify (set_num_train_games 0);;
  modify (set_num_train_hacks 0).

(** Lines 632-651: the iteration counters of the pools, and the snapshots
    added to the pools. *)
Definition advance_pools (cfg : PolicyGradientAgentConfig) (LL : learn_locals)
  : M learn_locals :=
  self ← get;
  api ← (if pool_mode cfg && train_attacker self
         then n ← bound (attacker_pool_iteration LL); mret (Some (n + 1))
         else mret (attacker_pool_iteration LL));
  dpi ← (if pool_mode cfg && train_defender self
         then n ← bound (defender_pool_iteration LL); mret (Some (n + 1))
         else mret (defender_pool_iteration LL));
  oi ← (if alternating_optimization cfg
        then n ← bound (optimization_iteration LL); mret (Some (n + 1))
        else mret (optimization_iteration LL));
  match opponent_pool cfg, opponent_pool_config cfg with
  | true, Some opc =>
      dpi ← (if train_defender self then
               n ← bound dpi;
               if decide (n > pool_increment_period opc)
               then add_model_to_pool cfg false;; mret (Some 0)
               else mret dpi
             else mret dpi);
      self ← get;
      api ← (if train_attacker self then
               n ← bound api;
               if decide (n > pool_increment_period opc)
               then add_model_to_pool cfg true;; mret (Some 0)
               else mret api
             else mret api);
      mret (mkLearnLocals api dpi oi)
  | _, _ => mret (mkLearnLocals api dpi oi)
  end.

(** Lines 600-651: the logging branch. *)
Definition log_training (cfg : PolicyGradientAgentConfig) (LL : learn_locals)
  : M learn_locals :=
  log_hack_probabilities;; advance_pools cfg LL.

(** Lines 670-682: the switch of the trained side. *)
Definition alternate (cfg : PolicyGradientAgentConfig) (LL : learn_locals)
  : M learn_locals :=
  if alternating_optimization cfg then
    n ← bound (optimization_iteration LL);
    self ← get;
    if train_attacker self && bool_decide (n > alternating_period cfg) then
      modify (set_train_attacker false);;
      modify (set_train_defender true);;
      mret (mkLearnLocals (attacker_pool_iteration LL) (defender_pool_iteration LL) (Some 0))
    else if train_defender self && bool_decide (n > alternating_period cfg) then
      modify (set_train_attacker true);;
      modify (set_train_defender false);;
      mret (mkLearnLocals (attacker_pool_iteration LL) (defender_pool_iteration LL) (Some 0))
    else mret LL
  else mret LL.

(** One pass of the [while] loop of [learn].  Unpacking the bare [False]
    of an aborted rollout into four names raises [TypeError]; saving a
    checkpoint changes none of the modelled attributes; of [train] only the
    changed policy is kept. *)
Definition learn_iteration (cfg : PolicyGradientAgentConfig)
    (attacker_action_space : space) (num_envs n_steps : Z)
    (w : iteration_world) (LL : learn_locals) : M learn_locals :=
  r ← collect_rollouts cfg attacker_action_space num_envs (w_rollout w) n_steps;
  match r with
  | Aborted => raise TypeError
  | Completed _ _ _ =>
      modify (fun self => set_iteration (iteration self + 1) self);;
      self ← get;
      m ← lift (py_mod (iteration self) (train_log_frequency cfg));
      LL ← (if decide (m = 0) then log_training cfg LL else mret LL);
      _ ← lift (py_mod (iteration self) (checkpoint_freq cfg));
      self ← get;
      when (attacker cfg && train_attacker self)
        (modify (set_attacker_policy (w_trained_attacker_policy w)));;
      when (defender cfg && train_defender self)
        (modify (set_defender_policy (w_trained_defender_policy w)));;
      alternate cfg LL
  end.

(** The [while self.num_timesteps < total_timesteps] loop, for at most
    [fuel] passes; [i] numbers the passes for the world. *)
Fixpoint learn_loop (cfg : PolicyGradientAgentConfig)
    (attacker_action_space : space) (num_envs n_steps total_timesteps : Z)
    (world : nat → iteration_world) (fuel i : nat) (LL : learn_locals) : M unit :=
  match fuel with
  | O => mret tt
  | S fuel =>
      self ← get;
      if decide (num_timesteps self < total_timesteps) then
        LL ← learn_iteration cfg attacker_action_space num_envs n_steps (world i) LL;
        learn_loop cfg attacker_action_space num_envs n_steps total_timesteps
          world fuel (S i) LL
      else mret tt
  end.

(** [learn]: [_setup_learn] of the base class resets [num_timesteps] when
    asked to; the episode counters are not reset.  The observations that
    [_setup_learn] takes from the reset of the environment are the ones the
    trainer of the model holds when [learn] is called. *)
Definition learn (cfg : PolicyGradientAgentConfig)
    (attacker_action_space : space) (num_envs n_steps total_timesteps : Z)
    (reset_num_timesteps : bool) (world : nat → iteration_world) (fuel : nat)
  : M unit :=
  modify (set_iteration 0);;
  when reset_num_timesteps (modify (set_num_timesteps 0));;
  learn_loop cfg attacker_action_space num_envs n_steps total_timesteps world
    fuel 0 (initial_learn_locals cfg).

(** *** The invariants of the episode bookkeeping *)

(** The four episode counters and the two hack probabilities. *)
Definition bookkeeping (self : PPO) : Z * Z * Z * Z * R * R :=
  (num_train_games self, num_train_hacks self,
   num_train_games_total self, num_train_hacks_total self,
   train_hack_probability self, train_cumulative_hack_probability self).

Definition counters_ok (self : PPO) : Prop :=
  0 <= num_train_hacks self <= num_train_games self ∧
  0 <= num_train_hacks_total self <= num_train_games_total self.

Definition probabilities_ok (self : PPO) : Prop :=
  (0 <= train_hack_probability self <= 1)%R ∧
  (0 <= train_cumulative_hack_probability self <= 1)%R.

Definition bookkeeping_ok (self : PPO) : Prop :=
  counters_ok self ∧ probabilities_ok self.

(** The cumulative counters are at least [g] and [h]. *)
Definition totals_at_least (g h : Z) (self : PPO) : Prop :=
  g <= num_train_games_total self ∧ h <= num_train_hacks_total self.

(** A computation keeps a property of the object, whether it ends normally
    or raises. *)
Definition preserves (P : PPO → Prop) {A} (m : M A) : Prop :=
  ∀ self, P self → P (m self).2.

End trainer.

(** *** A small trainer to run the model on

    Both sides are learning agents, alternating optimization is on and no
    opponent pool is configured; every payload of the world is the unit
    value, every step ends an episode with a hack. *)
Definition example_config : @PolicyGradientAgentConfig R :=
  {| attacker := true; defender := true;
     alternating_optimization := true; alternating_period := 0;
     opponent_pool := false; opponent_pool_config := None;
     train_log_frequency := 1; checkpoint_freq := 1 |}.

Definition example_step : @step_world unit :=
  {| w_attacker_forward := (tt, tt, tt);
     w_defender_forward := (tt, tt, tt);
     w_attacker_opponent_forward := (tt, tt, tt);
     w_defender_opponent_forward := (tt, tt, tt);
     w_attacker_bot_action := tt;
     w_defender_bot_action := tt;
     w_new_a_obs := tt;
     w_new_d_obs := tt;
     w_a_rewards := 0%R;
     w_d_rewards := 0%R;
     w_dones := true;
     w_prev_episode_hacked := true;
     w_on_step := true;
     w_resample_defender_opponent := false;
     w_resample_attacker_opponent := false;
     w_draw_defender_opponent := 0%nat;
     w_draw_attacker_opponent := 0%nat |}.

Definition example_iteration : @iteration_world unit unit :=
  {| w_rollout := fun _ => example_step;
     w_trained_attacker_policy := tt;
     w_trained_defender_policy := tt |}.

(** The trainer as [__init__] leaves it and [_setup_learn] gives it its
    first observations, with the given train flags. *)
Definition initial_trainer {score : Type} (train_attacker train_defender : bool)
  : @PPO score unit unit unit :=
  mkPPO tt tt [] [] None None None None train_attacker train_defender [] []
    tt tt 0 0 0 0 0 0 0%R 0%R.

Definition example_trainer : bool → bool → @PPO R unit unit unit :=
  initial_trainer.

(** A configured opponent pool of capacity 2 with quality scoring, initial
    quality 1 and learning rate 1/100 for the quality updates. *)
Definition example_pool_config : @OpponentPoolConfig R :=
  {| pool_maxsize := 2; pool_increment_period := 0; quality_scores := true;
     initial_quality := 1%R; quality_score_eta := (1 / 100)%R |}.

Definition example_config_with_pool : @PolicyGradientAgentConfig R :=
  {| attacker := true; defender := true;
     alternating_optimization := true; alternating_period := 0;
     opponent_pool := true; opponent_pool_config := Some example_pool_config;
     train_log_frequency := 1; checkpoint_freq := 1 |}.

(** The step of a world whose callback asks to stop. *)
Definition example_stopping_step : @step_world unit :=
  {| w_attacker_forward := (tt, tt, tt);
     w_defender_forward := (tt, tt, tt);
     w_attacker_opponent_forward := (tt, tt, tt);
     w_defender_opponent_forward := (tt, tt, tt);
     w_attacker_bot_action := tt;
     w_defender_bot_action := tt;
     w_new_a_obs := tt;
     w_new_d_obs := tt;
     w_a_rewards := 0%R;
     w_d_rewards := 0%R;
     w_dones := true;
     w_prev_episode_hacked := true;
     w_on_step := false;
     w_resample_defender_opponent := false;
     w_resample_attacker_opponent := false;
     w_draw_defender_opponent := 0%nat;
     w_draw_attacker_opponent := 0%nat |}.

Definition example_stopping_iteration : @iteration_world unit unit :=
  {| w_rollout := fun _ => example_stopping_step;
     w_trained_attacker_policy := tt;
     w_trained_defender_policy := tt |}.

(** An opponent pool configured with no capacity at all. *)
Definition example_pool_config_without_capacity : @OpponentPoolConfig R :=
  {| pool_maxsize := 0; pool_increment_period := 0; quality_scores := true;
     initial_quality := 1%R; quality_score_eta := (1 / 100)%R |}.

Definition example_config_without_capacity : @PolicyGradientAgentConfig R :=
  {| attacker := true; defender := true;
     alternating_optimization := true; alternating_period := 0;
     opponent_pool := true;
     opponent_pool_config := Some example_pool_config_without_capacity;
     train_log_frequency := 1; checkpoint_freq := 1 |}.



(** *** A trainer with binary64 scores

    The softmax of the library on a single finite score [q] is [[1.0]]
    exactly: the shifted score [q - q] is 0, its exponential is 1, and so is
    the quotient by the sum.  On longer lists the value depends on the
    rounding of the library's exponential and sum, which are not modelled:
    there this stand-in answers NaN, so that a run which used it on such a
    list could not go unnoticed. *)
Definition softmax_of_one_score (qualities : list float)
  : result (list float) :=
  match qualities with
  | [] => Raise ValueError
  | [q] => Ok [if PrimFloat.is_finite q then 1%float else nan]
  | _ :: _ :: _ => Ok ((fun _ => nan) <$> qualities)
  end.

(** A pool configuration with the quality learning rate 2^-60. *)
Definition binary64_pool_config : @OpponentPoolConfig float :=
  {| pool_maxsize := 2; pool_increment_period := 0; quality_scores := true;
     initial_quality := 1%float; quality_score_eta := 0x1p-60%float |}.

Definition binary64_config : @PolicyGradientAgentConfig float :=
  {| attacker := true; defender := true;
     alternating_optimization := true; alternating_period := 0;
     opponent_pool := true; opponent_pool_config := Some binary64_pool_config;
     train_log_frequency := 1; checkpoint_freq := 1 |}.

End Trainer.
(** * Facts about the topology *)

Import Topology.

Section result_facts.
Context {A B : Type}.

Lemma bind_Ok (f : A → result B) (a : A) : Ok a ≫= f = f a.
Proof. reflexivity. Qed.

Lemma bind_Ok_inv (f : A → result B) (m : result A) (b : B) :
  m ≫= f = Ok b → ∃ a, m = Ok a ∧ f a = Ok b.
Proof. destruct m as [a|e]; [eauto | discriminate]. Qed.

Lemma fmap_Ok_inv (f : A → B) (m : result A) (b : B) :
  f <$> m = Ok b → ∃ a, m = Ok a ∧ b = f a.
Proof. destruct m as [a|e]; cbn; [ intros [= <-]; eauto | discriminate]. Qed.
End result_facts.

Lemma py_index_nat {A} (l : list A) (i : nat) (a : A) :
  l !! i = Some a → py_index l (Z.of_nat i) = Ok a.
Proof.
  intros Hl. pose proof (lookup_lt_Some _ _ _ Hl) as Hlt.
  unfold py_index. cbn zeta.
  destruct (decide (Z.of_nat i < 0)) as [?|_]; [lia|].
  destruct (decide _) as [_|?]; [|lia]. by rewrite Nat2Z.id, Hl.
Qed.

Lemma py_index_nonneg {A} (l : list A) (i : Z) :
  0 <= i < Z.of_nat (length l) → py_index l i = 
    match l !! Z.to_nat i with Some a => Ok a | None => Raise IndexError end.
Proof.
  intros Hi. unfold py_index. cbn zeta.
  destruct (decide (i < 0)) as [?|_]; [lia|].
  by destruct (decide _) as [_|?]; [|lia].
Qed.

Lemma py_index_out {A} (l : list A) (i : Z) :
  Z.of_nat (length l) <= i → py_index l i = Raise IndexError.
Proof.
  intros Hi. unfold py_index. cbn zeta.
  destruct (decide (i < 0)) as [?|_]; [lia|].
  by destruct (decide _) as [?|_]; [lia|].
Qed.

Lemma elem_of_index_pairs n m i j :
  (i, j) ∈ index_pairs n m ↔ (i < n ∧ j < m)%nat.
Proof.
  unfold index_pairs. rewrite list_elem_of_bind. split.
  - intros (i' & Hj & Hi). apply list_elem_of_fmap in Hj as (j' & [= -> ->] & Hj).
    apply elem_of_seq in Hi, Hj. lia.
  - intros [Hi Hj]. exists i. split.
    + apply list_elem_of_fmap. exists j. split; [done|]. apply elem_of_seq. lia.
    + apply elem_of_seq. lia.
Qed.

Lemma layout_at_default nr nc A i j :
  (i < nr)%nat → (j < nc)%nat →
  layout_at (mkNetworkConfig nr nc (default_graph_layout nr nc) A) i j
  = layout_cell nr nc i j.
Proof.
  intros Hi Hj. unfold layout_at, default_graph_layout. cbn.
  erewrite (list_lookup_total_correct _ i);
    [|by rewrite list_lookup_fmap, lookup_seq_lt].
  apply list_lookup_total_correct.
  by rewrite list_lookup_fmap, lookup_seq_lt.
Qed.

Lemma init_inv nr nc self :
  init nr nc = Ok self →
  num_rows self = nr ∧ num_cols self = nc ∧
  graph_layout self = default_graph_layout nr nc ∧
  default_adjacency_matrix (mkNetworkConfig nr nc (default_graph_layout nr nc) [])
    = Ok (adjacency_matrix self).
Proof.
  unfold init. intros H. apply bind_Ok_inv in H as (M & HM & [= <-]). by cbn.
Qed.

(** ** The scans of the layout *)

Section scans.
Variable self : NetworkConfig.

Lemma find_pos_Ok ty cs p :
  find_pos self ty cs = Ok p →
  ∃ i j, p = (Z.of_nat i, Z.of_nat j) ∧ (i, j) ∈ cs ∧ layout_at self i j = ty.
Proof.
  induction cs as [|[i j] cs IH]; cbn; [discriminate|].
  destruct (decide _) as [Hty|_].
  - intros [= <-]. exists i, j. split_and!; [done|left|done].
  - intros (i' & j' & -> & Hin & Hty)%IH. exists i', j'.
    split_and!; [done|by right|done].
Qed.

Lemma find_pos_total ty cs i j :
  (i, j) ∈ cs → layout_at self i j = ty → is_Ok (find_pos self ty cs).
Proof.
  intros Hin Hty. induction cs as [|[i' j'] cs IH]; [by inversion Hin|].
  cbn. destruct (decide _); [done|].
  apply IH. apply elem_of_cons in Hin as [[= <- <-]|]; [congruence|done].
Qed.

(** [get_node_pos] returns for every id from the running count up to, but
    not including, the running count plus the number of occupied cells
    still to come. *)
Lemma get_node_pos_from_total node_id count cs :
  count <= node_id < count + Z.of_nat (length (filter (occupied self) cs)) →
  is_Ok (get_node_pos_from self node_id count cs).
Proof.
  revert count. induction cs as [|[i j] cs IH]; intros count Hn.
  - cbn in Hn. lia.
  - cbn. destruct (decide (node_id = count)); [done|].
    apply IH. rewrite filter_cons in Hn.
    destruct (decide (occupied self (i, j))); cbn in Hn; lia.
Qed.

(** An id at or beyond the final count is rejected. *)
Lemma get_node_pos_from_invalid node_id count cs :
  count + Z.of_nat (length (filter (occupied self) cs)) < node_id →
  get_node_pos_from self node_id count cs = Raise ValueError.
Proof.
  revert count. induction cs as [|[i j] cs IH]; intros count Hn; [done|].
  cbn. rewrite filter_cons in Hn.
  destruct (decide (node_id = count)) as [->|_].
  { destruct (decide (occupied self (i, j))); cbn in Hn; lia. }
  apply IH. destruct (decide (occupied self (i, j))); cbn in Hn; lia.
Qed.

(** [get_node_id] on an occupied cell of the grid is its rank among the
    occupied cells. *)
Lemma get_node_id_from_occupied i j count cs :
  (i, j) ∈ cs → occupied self (i, j) →
  ∃ k : nat,
    get_node_id_from self (Z.of_nat i) (Z.of_nat j) count cs
      = Ok (count + Z.of_nat k) ∧
    filter (occupied self) cs !! k = Some (i, j).
Proof.
  intros Hin Hocc. revert count.
  induction cs as [|[i' j'] cs IH]; intros count; [by inversion Hin|].
  cbn [get_node_id_from]. destruct (decide (_ ∧ _)) as [[Hi Hj]|Hne].
  - apply Nat2Z.inj in Hi, Hj. subst i' j'.
    rewrite decide_False by exact Hocc.
    exists 0%nat. split; [f_equal; lia|].
    by rewrite filter_cons_True.
  - assert ((i, j) ∈ cs) as Hin'.
    { apply elem_of_cons in Hin as [[= <- <-]|]; [|done]. by destruct Hne. }
    rewrite filter_cons. destruct (decide (occupied self (i', j'))).
    + destruct (IH Hin' (count + 1)) as (k & -> & Hk).
      exists (S k). split; [f_equal; lia|done].
    + destruct (IH Hin' count) as (k & -> & Hk). by exists k.
Qed.

Lemma get_node_id_from_empty i j count cs :
  (i, j) ∈ cs → ¬ occupied self (i, j) →
  get_node_id_from self (Z.of_nat i) (Z.of_nat j) count cs = Ok (-1).
Proof.
  intros Hin Hocc. revert count.
  induction cs as [|[i' j'] cs IH]; intros count; [by inversion Hin|].
  cbn. destruct (decide (_ ∧ _)) as [[Hi Hj]|Hne].
  - apply Nat2Z.inj in Hi, Hj. subst i' j'.
    destruct (decide (layout_at self i j = EMPTY)) as [|Hl]; [done|].
    by destruct Hocc.
  - apply IH. apply elem_of_cons in Hin as [[= <- <-]|]; [|done]. by destruct Hne.
Qed.

Lemma node_list_lookup k c :
  filter (occupied self) (cells self) !! k = Some c →
  node_list self !! k = Some (layout_at self c.1 c.2).
Proof. intros H. unfold node_list. by rewrite list_lookup_fmap, H. Qed.

Lemma length_node_list :
  length (node_list self) = length (filter (occupied self) (cells self)).
Proof. unfold node_list. by rewrite length_fmap. Qed.

(** Counting the occupied cells of one row. *)
Lemma count_row_single i a s n :
  (∀ j, s ≤ j < s + n → occupied self (i, j) ↔ j = a)%nat →
  length (filter (occupied self) ((fun j => (i, j)) <$> seq s n))
  = if decide (s ≤ a < s + n)%nat then 1%nat else 0%nat.
Proof.
  revert s. induction n as [|n IH]; intros s H.
  { cbn. by rewrite decide_False by lia. }
  cbn [seq]. rewrite fmap_cons, filter_cons.
  destruct (decide (occupied self (i, s))) as [Ho|Ho];
    cbn [length]; rewrite IH by (intros j Hj; apply H; lia).
  - apply H in Ho; [|lia]. subst a.
    rewrite decide_False by lia. by rewrite decide_True by lia.
  - assert (s ≠ a) by (intros ->; apply Ho, H; [lia|done]).
    destruct (decide (S s ≤ a < _)%nat), (decide (s ≤ a < _)%nat); (done || lia).
Qed.

Lemma count_row_all i s n :
  (∀ j, s ≤ j < s + n → occupied self (i, j))%nat →
  length (filter (occupied self) ((fun j => (i, j)) <$> seq s n)) = n.
Proof.
  revert s. induction n as [|n IH]; intros s H; [done|].
  cbn [seq]. rewrite fmap_cons, filter_cons_True by (apply H; lia).
  cbn. f_equal. apply IH. intros j Hj. apply H. lia.
Qed.

Lemma count_rows_all (rows : list nat) m :
  (∀ i j, i ∈ rows → j < m → occupied self (i, j))%nat →
  length (filter (occupied self) (rows ≫= fun i => (fun j => (i, j)) <$> seq 0 m))
  = (length rows * m)%nat.
Proof.
  induction rows as [|i rows IH]; intros H; [done|].
  rewrite bind_cons, list.filter_app, length_app.
  rewrite count_row_all by (intros j Hj; apply H; [left|lia]).
  rewrite IH by (intros i' j Hi Hj; apply H; [by right|done]). cbn. lia.
Qed.
End scans.

(** ** The default layout *)

Section default_layout.
Variables (nr nc : nat) (A : list (list Z)).

Let self := mkNetworkConfig nr nc (default_graph_layout nr nc) A.

Lemma cells_default : cells self = index_pairs nr nc.
Proof. reflexivity. Qed.

Lemma occupied_default i j :
  (i < nr)%nat → (j < nc)%nat →
  occupied self (i, j) ↔ layout_cell nr nc i j ≠ EMPTY.
Proof.
  intros Hi Hj. unfold occupied. cbn [fst snd].
  subst self. by rewrite layout_at_default.
Qed.

Lemma layout_cell_top j :
  (2 ≤ nr)%nat →
  layout_cell nr nc 0 j = if decide (j = nc `div` 2)%nat then DATA else EMPTY.
Proof.
  intros H. unfold layout_cell.
  destruct (decide (Z.of_nat 0 = _)) as [?|_]; [lia|]. by rewrite decide_True.
Qed.

Lemma layout_cell_bottom i j :
  (i + 1 = nr)%nat →
  layout_cell nr nc i j
  = if decide (j = nc `div` 2)%nat then START else EMPTY.
Proof.
  intros H. unfold layout_cell.
  by destruct (decide (Z.of_nat i = _)) as [_|?]; [|lia].
Qed.

Lemma layout_cell_middle i j :
  (0 < i)%nat → (i < nr - 1)%nat → layout_cell nr nc i j = SERVER.
Proof.
  intros H1 H2. unfold layout_cell.
  destruct (decide (Z.of_nat i = _)) as [?|_]; [lia|].
  by destruct (decide (i = 0)%nat) as [?|_]; [lia|].
Qed.

Lemma half_lt : (1 ≤ nc)%nat → (nc `div` 2 < nc)%nat.
Proof. intros H. apply Nat.div_lt; lia. Qed.

Lemma start_pos_default :
  (1 ≤ nr)%nat → (1 ≤ nc)%nat →
  ∃ i j, start_pos self = Ok (Z.of_nat i, Z.of_nat j) ∧
         (i < nr)%nat ∧ (j < nc)%nat ∧ layout_at self i j = START.
Proof.
  intros Hr Hc. pose proof (half_lt Hc) as Hh.
  assert (is_Ok (start_pos self)) as Hok.
  { apply (find_pos_total self START _ (nr - 1)%nat (nc `div` 2)%nat).
    - apply elem_of_index_pairs. split; [cbn; lia | exact Hh].
    - subst self. rewrite layout_at_default by lia.
      rewrite layout_cell_bottom by lia. by rewrite decide_True. }
  destruct (start_pos self) as [p|] eqn:Hp; [|done].
  apply find_pos_Ok in Hp as (i & j & -> & Hin & Hty).
  apply elem_of_index_pairs in Hin as [Hi Hj]. by exists i, j.
Qed.

Lemma data_pos_default :
  (2 ≤ nr)%nat → (1 ≤ nc)%nat →
  ∃ i j, data_pos self = Ok (Z.of_nat i, Z.of_nat j) ∧
         (i < nr)%nat ∧ (j < nc)%nat ∧ layout_at self i j = DATA.
Proof.
  intros Hr Hc. pose proof (half_lt Hc) as Hh.
  assert (is_Ok (data_pos self)) as Hok.
  { apply (find_pos_total self DATA _ 0%nat (nc `div` 2)%nat).
    - apply elem_of_index_pairs. split; [cbn; lia | exact Hh].
    - subst self. rewrite layout_at_default by lia.
      rewrite layout_cell_top by done. by rewrite decide_True. }
  destruct (data_pos self) as [p|] eqn:Hp; [|done].
  apply find_pos_Ok in Hp as (i & j & -> & Hin & Hty).
  apply elem_of_index_pairs in Hin as [Hi Hj]. by exists i, j.
Qed.
End default_layout.

(** The grid of [num_layers + 2] rows and [num_servers_per_layer] columns
    has [num_layers * num_servers_per_layer + 2] occupied cells. *)
Lemma count_occupied_default (layers servers : nat) A :
  (1 ≤ servers)%nat →
  let self := mkNetworkConfig (layers + 2) servers
                (default_graph_layout (layers + 2) servers) A in
  length (filter (occupied self) (cells self)) = (layers * servers + 2)%nat.
Proof.
  intros Hs self. pose proof (half_lt servers Hs) as Hh.
  unfold cells, index_pairs. cbn [num_rows num_cols self].
  replace (layers + 2)%nat with (S (S layers)) by lia.
  change (seq 0 (S (S layers))) with (0%nat :: seq 1 (S layers)).
  rewrite bind_cons. rewrite seq_S, bind_app.
  rewrite !list.filter_app, !length_app.
  rewrite (count_row_single self 0 (servers `div` 2)).
  2:{ intros j Hj. subst self. rewrite occupied_default by lia.
      rewrite layout_cell_top by lia. case_decide; split; intros; (done || congruence). }
  rewrite decide_True by lia.
  rewrite count_rows_all.
  2:{ intros i j Hi Hj. apply elem_of_seq in Hi. subst self.
      rewrite occupied_default by lia.
      by rewrite layout_cell_middle by lia. }
  rewrite length_seq. cbn [mbind list_bind]. rewrite app_nil_r.
  rewrite (count_row_single self _ (servers `div` 2)).
  2:{ intros j Hj. subst self. rewrite occupied_default by lia.
      rewrite layout_cell_bottom by lia. case_decide; split; intros; (done || congruence). }
  rewrite decide_True by lia. lia.
Qed.

(** ** The adjacency matrix *)

Lemma mget_zeros n i j :
  mget (zeros n n) i j = if decide (i < n ∧ j < n)%nat then Some 0 else None.
Proof.
  unfold mget, zeros. destruct (decide (i < n)%nat) as [Hi|Hi].
  - rewrite lookup_replicate_2 by done. cbn.
    destruct (decide (j < n)%nat) as [Hj|Hj].
    + rewrite lookup_replicate_2 by done. by rewrite decide_True.
    + rewrite decide_False by lia. apply lookup_replicate_None. lia.
  - rewrite decide_False by lia.
    by rewrite (proj1 (lookup_replicate_None _ _ _)) by lia.
Qed.

Lemma square_zeros n : square n (zeros n n).
Proof.
  split; [apply length_replicate|].
  apply Forall_replicate, length_replicate.
Qed.

Lemma symmetric_zeros n : symmetric (zeros n n).
Proof.
  intros i j. rewrite !mget_zeros.
  destruct (decide (i < n ∧ j < n)%nat), (decide (j < n ∧ i < n)%nat);
    (done || lia).
Qed.

Lemma square_row n M i r : square n M → M !! i = Some r → length r = n.
Proof.
  intros [_ HF] Hr. rewrite Forall_forall in HF. apply HF.
  apply list_elem_of_In. by eapply list_elem_of_lookup_2.
Qed.

Lemma square_mset n M i j v : square n M → square n (mset M i j v).
Proof.
  intros [Hlen HF]. unfold mset. split; [by rewrite length_insert|].
  destruct (decide (i < length M)%nat) as [Hi|Hi].
  - apply Forall_insert; [done|]. rewrite length_insert.
    destruct (lookup_lt_is_Some_2 M i Hi) as [r Hr].
    rewrite (list_lookup_total_correct _ _ _ Hr).
    by eapply square_row.
  - by rewrite list_insert_ge by lia.
Qed.

Lemma mget_mset n M i j v a b :
  square n M → (i < n)%nat → (j < n)%nat →
  mget (mset M i j v) a b
  = if decide (a = i ∧ b = j) then Some v else mget M a b.
Proof.
  intros HM Hi Hj. pose proof HM as [Hlen _]. unfold mget, mset.
  destruct (lookup_lt_is_Some_2 M i ltac:(lia)) as [r Hr].
  rewrite (list_lookup_total_correct _ _ _ Hr).
  pose proof (square_row _ _ _ _ HM Hr) as Hlr.
  destruct (decide (a = i)) as [->|Ha].
  - rewrite list_lookup_insert_eq by lia. cbn. rewrite Hr. cbn.
    destruct (decide (b = j)) as [->|Hb].
    + rewrite decide_True by done. apply list_lookup_insert_eq. lia.
    + rewrite decide_False by (by intros [_ ?]). by apply list_lookup_insert_ne.
  - rewrite list_lookup_insert_ne by done. by rewrite decide_False by (by intros [? _]).
Qed.

Lemma square_set_edge n M i j : square n M → square n (set_edge M i j).
Proof. intros H. unfold set_edge. by do 2 apply square_mset. Qed.

(** Writing both [M[i][j]] and [M[j][i]] keeps a symmetric matrix
    symmetric. *)
Lemma symmetric_set_edge n M i j :
  square n M → (i < n)%nat → (j < n)%nat →
  symmetric M → symmetric (set_edge M i j).
Proof.
  intros HM Hi Hj Hsym a b. unfold set_edge.
  rewrite !(mget_mset n) by auto using square_mset.
  rewrite (Hsym a b).
  repeat case_decide; (done || lia).
Qed.

Lemma adjacency_body_cases self M i j M' :
  adjacency_body self M (i, j) = Ok M' → M' = M ∨ M' = set_edge M i j.
Proof.
  unfold adjacency_body.
  destruct (data_row self) as [dr|]; [|discriminate].
  destruct (data_col self) as [dc|], (start_row self) as [sr|],
    (start_col self) as [sc|]; cbn;
    repeat case_decide; intros [= <-] || discriminate; auto.
Qed.

Lemma adjacency_body_total self M ij :
  is_Ok (data_pos self) → is_Ok (start_pos self) →
  is_Ok (adjacency_body self M ij).
Proof.
  destruct ij as [i j]. unfold adjacency_body, data_row, data_col, start_row, start_col.
  destruct (data_pos self) as [dp|]; [|done].
  destruct (start_pos self) as [sp|]; [|done]. intros _ _. cbn.
  repeat case_decide; done.
Qed.

Section adjacency_loop.
Variable self : NetworkConfig.

Let step := fun (acc : result (list (list Z))) (ij : nat * nat) =>
  M ← acc; adjacency_body self M ij.

Lemma adjacency_loop_invariant n (ps : list (nat * nat)) acc M :
  Forall (fun p => p.1 < n ∧ p.2 < n)%nat ps →
  (∀ M0, acc = Ok M0 → square n M0 ∧ symmetric M0) →
  foldl step acc ps = Ok M → square n M ∧ symmetric M.
Proof.
  intros Hps. revert acc. induction Hps as [|[i j] ps [Hi Hj] _ IH];
    intros acc Hacc; cbn [foldl]; [by apply Hacc|].
  apply IH. intros M0 HM0. unfold step in HM0.
  apply bind_Ok_inv in HM0 as (M1 & -> & Hbody).
  destruct (Hacc M1 eq_refl) as [Hsq Hsym].
  apply adjacency_body_cases in Hbody as [->| ->]; [done|].
  split; [by apply square_set_edge | by eapply symmetric_set_edge].
Qed.

Lemma adjacency_loop_total (ps : list (nat * nat)) acc :
  is_Ok (data_pos self) → is_Ok (start_pos self) →
  is_Ok acc → is_Ok (foldl step acc ps).
Proof.
  intros Hd Hs. revert acc. induction ps as [|p ps IH]; intros acc Hacc; [done|].
  cbn [foldl]. apply IH. destruct acc as [M0|]; [|done].
  by apply adjacency_body_total.
Qed.
End adjacency_loop.

Lemma default_adjacency_matrix_symmetric self M :
  default_adjacency_matrix self = Ok M →
  square (num_rows self * num_cols self) M ∧ symmetric M.
Proof.
  unfold default_adjacency_matrix. apply adjacency_loop_invariant.
  - apply Forall_forall. intros [i j] Hin. apply list_elem_of_In in Hin.
    by apply elem_of_index_pairs in Hin.
  - intros M0 [= <-]. split; [apply square_zeros | apply symmetric_zeros].
Qed.

Lemma mget_square n M i j :
  square n M → (i < n)%nat → (j < n)%nat → is_Some (mget M i j).
Proof.
  intros HM Hi Hj. pose proof HM as [Hlen _]. unfold mget.
  destruct (lookup_lt_is_Some_2 M i ltac:(lia)) as [r Hr]. rewrite Hr. cbn.
  apply lookup_lt_is_Some_2. by rewrite (square_row _ _ _ _ HM Hr).
Qed.

(** The constructor succeeds on every grid with at least two rows and one
    column (with a single row there is no DATA cell and [data_row]
    raises). *)
Lemma init_total nr nc :
  (2 ≤ nr)%nat → (1 ≤ nc)%nat → is_Ok (init nr nc).
Proof.
  intros Hr Hc. unfold init.
  set (self := mkNetworkConfig nr nc _ []).
  assert (is_Ok (default_adjacency_matrix self)) as Hok.
  { apply adjacency_loop_total; [| |done].
    - destruct (data_pos_default nr nc [] Hr Hc) as (i & j & Hd & _).
      fold self in Hd. by rewrite Hd.
    - destruct (start_pos_default nr nc [] ltac:(lia) Hc) as (i & j & Hd & _).
      fold self in Hd. by rewrite Hd. }
  by destruct (default_adjacency_matrix self).
Qed.

(** * Facts about the game configuration and the action interpreter *)

Import Game.

Lemma py_index_from_end {A} (l : list A) (k : nat) :
  (S k ≤ length l)%nat →
  py_index l (- Z.of_nat (S k))
  = match reverse l !! k with Some a => Ok a | None => Raise IndexError end.
Proof.
  intros Hk. unfold py_index. cbn zeta.
  destruct (decide (- Z.of_nat (S k) < 0)) as [_|?]; [|lia].
  destruct (decide _) as [_|?]; [|lia].
  rewrite reverse_lookup by lia.
  by replace (Z.to_nat (Z.of_nat (length l) + - Z.of_nat (S k)))
    with (length l - S k)%nat by lia.
Qed.

Lemma init_default_inv layers servers types maxv gc :
  Game.init None layers servers types maxv = Ok gc →
  Topology.init (layers + 2) servers = Ok (network_config gc) ∧
  (1 ≤ servers)%nat ∧
  num_attack_types gc = types ∧
  num_nodes gc = Z.of_nat layers * Z.of_nat servers + 2 ∧
  num_attack_actions gc = types * num_nodes gc ∧
  num_defense_actions gc = (types + 1) * num_nodes gc.
Proof.
  unfold Game.init. intros H.
  apply bind_Ok_inv in H as (self & Hself & H).
  apply bind_Ok_inv in H as (sp & Hsp & [= <-]). cbn.
  split_and!; try done.
  apply find_pos_Ok in Hsp as (i & j & _ & Hin & _).
  apply elem_of_index_pairs in Hin.
  apply init_inv in Hself as (_ & <- & _). lia.
Qed.

(** The node list of a default game configuration has [num_nodes]
    entries. *)
Lemma length_node_list_default layers servers types maxv gc :
  Game.init None layers servers types maxv = Ok gc →
  Z.of_nat (length (node_list (network_config gc))) = num_nodes gc.
Proof.
  intros (Hinit & Hs & _ & -> & _)%init_default_inv.
  apply init_inv in Hinit as (Hr & Hc & Hl & _).
  rewrite length_node_list.
  destruct (network_config gc) as [nr nc g A]. cbn in *. subst.
  rewrite count_occupied_default by done. lia.
Qed.

Lemma get_node_pos_valid layers servers types maxv gc n :
  Game.init None layers servers types maxv = Ok gc →
  0 <= n < num_nodes gc →
  is_Ok (get_node_pos (network_config gc) n).
Proof.
  intros Hgc Hn. apply get_node_pos_from_total.
  rewrite <- length_node_list.
  rewrite (length_node_list_default _ _ _ _ _ Hgc). lia.
Qed.

(** C7. For every valid node id [n] and type [t] of a default game
    configuration, interpreting the action id encoded from [(n, t)] succeeds
    and gives back [(n, get_node_pos n, t)]. *)
Theorem interpret_action_get_action_id layers servers types maxv gc n t :
  Game.init None layers servers types maxv = Ok gc →
  0 <= n < num_nodes gc →
  0 <= t < types →
  ∃ pos, get_node_pos (network_config gc) n = Ok pos ∧
         interpret_action (get_action_id n t gc) gc = Ok (n, pos, t).
Proof.
  intros Hgc Hn Ht.
  pose proof (get_node_pos_valid _ _ _ _ _ _ Hgc Hn) as Hpos.
  destruct (get_node_pos (network_config gc) n) as [pos|] eqn:Hp; [|done].
  exists pos. split; [done|].
  apply init_default_inv in Hgc as (_ & _ & Hty & _).
  unfold interpret_action, get_attack_defense_type, get_action_id,
    py_floordiv, py_mod.
  rewrite Hty. rewrite !decide_False by lia. cbn.
  rewrite Z.div_add_l by lia. rewrite Z.div_small by lia.
  rewrite Z.add_0_r, Hp. cbn.
  rewrite Z.add_comm, Z.mod_add by lia. by rewrite Z.mod_small by lia.
Qed.

(** The scenario of the specification: ten attack types on the four-node
    topology; action id 23 is node 2 with type 3. *)
Lemma interpret_action_get_action_id_witness :
  ∃ gc, Game.init None 1 2 10 9 = Ok gc ∧
        get_action_id 2 3 gc = 23 ∧
        ∃ pos, get_node_pos (network_config gc) 2 = Ok pos ∧
               interpret_action (get_action_id 2 3 gc) gc = Ok (2, pos, 3).
Proof.
  destruct (Game.init None 1 2 10 9) as [gc|] eqn:Hgc; [|by vm_compute in Hgc].
  exists gc. split; [done|]. split.
  - by injection Hgc as <-.
  - apply (interpret_action_get_action_id 1 2 10 9 gc 2 3 Hgc).
    + injection Hgc as <-. vm_compute. by split.
    + lia.
Defined.

Example interpret_action_23 :
  (gc ← Game.init None 1 2 10 9; interpret_action 23 gc) = Ok (2, (1, 1), 3).
Proof. reflexivity. Qed.

(** ** The round trip between node ids and positions *)

Lemma index_pairs_head n m :
  (1 ≤ n)%nat → (1 ≤ m)%nat →
  ∃ rest, index_pairs n m = (0, 0)%nat :: rest.
Proof.
  intros Hn Hm. destruct n as [|n]; [lia|]. destruct m as [|m]; [lia|].
  unfold index_pairs. cbn [seq]. rewrite bind_cons, fmap_cons. eauto.
Qed.

(** [get_node_pos] compares the id with the running count before it looks
    at the cell, so id 0 is always answered with the first cell of the grid,
    whatever that cell holds. *)
Lemma get_node_pos_0 self :
  (1 ≤ num_rows self)%nat → (1 ≤ num_cols self)%nat →
  get_node_pos self 0 = Ok (0, 0).
Proof.
  intros Hr Hc. unfold get_node_pos, cells.
  destruct (index_pairs_head _ _ Hr Hc) as [rest ->]. reflexivity.
Qed.

(** On every default grid with at least two rows and two columns the first
    cell is EMPTY, and the round trip sends node id 0 to -1. *)
Lemma round_trip_fails_at_0 nr nc self :
  Topology.init nr nc = Ok self → (2 ≤ nr)%nat → (2 ≤ nc)%nat →
  (pos ← get_node_pos self 0; get_node_id self pos) = Ok (-1).
Proof.
  intros (Hr & Hc & Hl & _)%init_inv Hnr Hnc.
  rewrite get_node_pos_0 by lia. cbn [mbind result_bind].
  unfold get_node_id, cells.
  destruct (index_pairs_head (num_rows self) (num_cols self)) as [rest ->];
    [lia..|].
  cbn. destruct self as [nr' nc' g A]. cbn in *. subst.
  rewrite (layout_at_default nr nc A 0 0) by lia.
  rewrite layout_cell_top by lia.
  assert (nc `div` 2 ≠ 0)%nat.
  { intros H0. apply Nat.div_small_iff in H0; lia. }
  rewrite decide_True by done.
  destruct (decide (0%nat = _)) as [?|_]; [congruence|]. by rewrite decide_True.
Qed.

(** C1. The round trip fails on the default four-node topology (three rows,
    two columns): node id 0 is valid, [get_node_pos 0] is the EMPTY cell
    [(0, 0)], and [get_node_id (0, 0)] is [-1]; the same happens for the id
    of the START node, 3. *)
Theorem get_node_id_get_node_pos_round_trip_fails :
  ∃ self, Topology.init 3 2 = Ok self ∧
          length (node_list self) = 4%nat ∧
          get_node_pos self 0 = Ok (0, 0) ∧
          get_node_id self (0, 0) = Ok (-1) ∧
          get_node_pos self 3 = Ok (2, 0) ∧
          get_node_id self (2, 0) = Ok (-1).
Proof. eexists. split; [reflexivity|]. by vm_compute. Qed.

(** Where [get_node_pos] lands on an occupied cell the round trip holds. *)
Lemma get_node_id_from_get_node_pos_from self n count cs pos i j :
  NoDup cs →
  get_node_pos_from self n count cs = Ok pos →
  pos = (Z.of_nat i, Z.of_nat j) → occupied self (i, j) →
  get_node_id_from self pos.1 pos.2 count cs = Ok n.
Proof.
  intros Hnd Hpos -> Hocc. cbn [fst snd]. revert count Hpos.
  induction Hnd as [|[i' j'] cs Hnotin Hnd IH]; intros count; [discriminate|].
  cbn [get_node_pos_from get_node_id_from].
  destruct (decide (n = count)) as [->|Hne].
  - intros [= Hi Hj]. apply Nat2Z.inj in Hi, Hj. subst i' j'.
    rewrite decide_True by done. by rewrite decide_False by exact Hocc.
  - intros Hpos. destruct (decide (_ ∧ _)) as [[Hi Hj]|_]; [|by apply IH].
    apply Nat2Z.inj in Hi, Hj. subst i' j'. exfalso. apply Hnotin.
    clear -Hpos. revert Hpos. generalize (if decide (occupied self (i, j))
      then count + 1 else count). clear count.
    induction cs as [|[a b] cs IH]; intros c; [discriminate|].
    cbn [get_node_pos_from]. case_decide.
    + intros [= Hi Hj]. apply Nat2Z.inj in Hi, Hj. subst. left.
    + intros H'. right. by eapply IH.
Qed.

Lemma NoDup_index_pairs n m : NoDup (index_pairs n m).
Proof.
  unfold index_pairs. apply NoDup_bind.
  - intros i1 i2 p _ _ (j1 & -> & _)%list_elem_of_fmap (j2 & [= -> _] & _)%list_elem_of_fmap.
    done.
  - intros i _. apply NoDup_fmap_2; [|apply NoDup_seq]. by intros ?? [= ->].
  - apply NoDup_seq.
Qed.

Lemma get_node_id_get_node_pos_occupied self n pos i j :
  get_node_pos self n = Ok pos →
  pos = (Z.of_nat i, Z.of_nat j) → occupied self (i, j) →
  get_node_id self pos = Ok n.
Proof.
  intros Hpos Hp Hocc. unfold get_node_id.
  eapply get_node_id_from_get_node_pos_from; eauto using NoDup_index_pairs.
Qed.

(** ** Defense legality *)

(** Inside the part of the defense action space whose node id exists, the
    check is total and answers by the node's type. *)
Lemma is_defense_id_legal_in_range layers servers types maxv gc d :
  Game.init None layers servers types maxv = Ok gc →
  0 <= d < types * num_nodes gc →
  ∃ ty, node_list (network_config gc) !! Z.to_nat (d `div` types) = Some ty ∧
        is_defense_id_legal d gc = Ok (bool_decide (ty = SERVER ∨ ty = DATA)).
Proof.
  intros Hgc Hd.
  pose proof (length_node_list_default _ _ _ _ _ Hgc) as Hlen.
  assert (0 < types) as Hty by nia.
  assert (0 <= d `div` types < num_nodes gc) as Hid.
  { split; [apply Z.div_pos; lia|]. apply Z.div_lt_upper_bound; lia. }
  pose proof (get_node_pos_valid _ _ _ _ _ _ Hgc Hid) as Hpos.
  destruct (lookup_lt_is_Some_2 (node_list (network_config gc))
              (Z.to_nat (d `div` types)) ltac:(lia)) as [ty Hlk].
  exists ty. split; [done|].
  apply init_default_inv in Hgc as (_ & _ & Htypes & _).
  unfold is_defense_id_legal, interpret_action, get_attack_defense_type,
    py_floordiv, py_mod.
  rewrite Htypes. rewrite !decide_False by lia. cbn.
  destruct (get_node_pos _ _) as [pos|]; [|done]. cbn.
  rewrite py_index_nonneg by lia. rewrite Hlk. cbn.
  by destruct ty.
Qed.

(** From the first id whose node id is [num_nodes] on, the check raises:
    either [get_node_pos] rejects the node id, or the node list has no such
    index. *)
Lemma is_defense_id_legal_raises layers servers types maxv gc d :
  Game.init None layers servers types maxv = Ok gc →
  0 < types → types * num_nodes gc <= d →
  ¬ is_Ok (is_defense_id_legal d gc).
Proof.
  intros Hgc Hty Hd.
  pose proof (length_node_list_default _ _ _ _ _ Hgc) as Hlen.
  assert (num_nodes gc <= d `div` types) as Hid.
  { apply Z.div_le_lower_bound; lia. }
  apply init_default_inv in Hgc as (_ & _ & Htypes & _).
  unfold is_defense_id_legal, interpret_action, get_attack_defense_type,
    py_floordiv, py_mod.
  rewrite Htypes. rewrite !decide_False by lia. cbn.
  destruct (get_node_pos _ _) as [pos|]; [|by intros []]. cbn.
  rewrite py_index_out by lia. by intros [].
Qed.

(** C2. On the default configuration (one layer, two servers per layer, ten
    attack types) the defense action space has 44 ids; id 40 lies in it, and
    [is_defense_id_legal 40] raises instead of answering. *)
Theorem is_defense_id_legal_raises_in_action_space :
  ∃ gc, Game.init None 1 2 10 9 = Ok gc ∧
        num_defense_actions gc = 44 ∧
        is_defense_id_legal 40 gc = Raise ValueError ∧
        is_defense_id_legal 39 gc = Ok false.
Proof. eexists. split; [reflexivity|]. by vm_compute. Qed.

(** ** Attack legality *)

(** C8. An attack on the attacker's own position, or on the position of the
    START node, is rejected, whatever the adjacency matrix and the move
    history are. *)
Theorem is_attack_legal_self_or_start self target_pos attacker_pos past_moves :
  target_pos = attacker_pos ∨ start_pos self = Ok target_pos →
  is_attack_legal target_pos attacker_pos self past_moves = Ok false.
Proof.
  intros H. unfold is_attack_legal.
  destruct (decide (target_pos = attacker_pos)) as [|Hne]; [done|].
  destruct H as [|Hstart]; [done|].
  apply find_pos_Ok in Hstart as (i & j & -> & Hin & Hty).
  assert (occupied self (i, j)) as Hocc.
  { unfold occupied. cbn [fst snd]. by rewrite Hty. }
  unfold get_node_id. cbn [fst snd].
  destruct (get_node_id_from_occupied self i j 0 _ Hin Hocc) as (k & -> & Hk).
  cbn [mbind result_bind]. rewrite Z.add_0_l.
  rewrite (py_index_nat _ _ _ (node_list_lookup self _ _ Hk)).
  cbn [mbind result_bind fst snd]. by rewrite decide_True.
Qed.

Lemma is_attack_legal_self_or_start_witness :
  ∃ self, Topology.init 3 2 = Ok self ∧
          start_pos self = Ok (2, 1) ∧
          is_attack_legal (2, 1) (1, 1) self (Some [2; 1; 2; 1]) = Ok false ∧
          is_attack_legal (1, 1) (1, 1) self None = Ok false.
Proof.
  eexists. split; [reflexivity|]. split; [reflexivity|]. split.
  - apply is_attack_legal_self_or_start. right. reflexivity.
  - apply is_attack_legal_self_or_start. left. reflexivity.
Defined.

(** The condition of the anti-cycling [if], read from the end of the
    history. *)
Lemma cycle_condition_spec id target_pos attacker_pos pm :
  (4 ≤ length pm)%nat →
  cycle_condition id target_pos attacker_pos pm
  = Ok (bool_decide (back_and_forth pm id ∧ attacker_pos.1 < target_pos.1)).
Proof.
  intros Hlen. unfold cycle_condition, back_and_forth, from_end.
  destruct target_pos as [tr tc], attacker_pos as [ar ac]. cbn [fst snd].
  change (-1) with (- Z.of_nat 1). change (-2) with (- Z.of_nat 2).
  change (-3) with (- Z.of_nat 3). change (-4) with (- Z.of_nat 4).
  rewrite !py_index_from_end by lia.
  destruct (lookup_lt_is_Some_2 (reverse pm) 0) as [m1 ->];
    [rewrite length_reverse; lia|].
  destruct (lookup_lt_is_Some_2 (reverse pm) 1) as [m2 ->];
    [rewrite length_reverse; lia|].
  destruct (lookup_lt_is_Some_2 (reverse pm) 2) as [m3 ->];
    [rewrite length_reverse; lia|].
  destruct (lookup_lt_is_Some_2 (reverse pm) 3) as [m4 ->];
    [rewrite length_reverse; lia|].
  unfold and_then. cbn [mbind result_bind].
  assert (∀ b : bool,
    (b = true ↔ id = m2 ∧ id ≠ m1 ∧ m1 = m3 ∧ id = m4 ∧ tr > ar) →
    Ok b = Ok (bool_decide
      ((Some m2 = Some id ∧ Some m4 = Some id ∧ Some m1 = Some m3 ∧
        Some m1 ≠ Some id) ∧ ar < tr))) as Hb.
  { intros b Hb. f_equal. destruct b; symmetry.
    - apply bool_decide_eq_true_2.
      destruct (proj1 Hb eq_refl) as (-> & ? & -> & -> & ?).
      split_and!; (done || congruence || lia).
    - apply bool_decide_eq_false_2. intros [(? & ? & ? & ?) ?].
      enough (false = true) by done. apply Hb.
      split_and!; (congruence || lia). }
  repeat (case_bool_decide; cbn [mbind result_bind]);
    apply Hb; split; (discriminate || tauto).
Qed.

(** C3, as amended. [is_attack_legal] is the self-target, START-node and
    adjacency rules with the anti-cycling rule in between: the anti-cycling
    rule rejects exactly when at least four moves are recorded, the last four
    recorded positions form the period-2 back-and-forth pattern ending at the
    target, and the target lies strictly below the attacker's current row
    (its row index is strictly greater than the attacker's). *)
Theorem is_attack_legal_anti_cycling self target_pos attacker_pos past_moves :
  is_attack_legal target_pos attacker_pos self past_moves
  = attack_rules target_pos attacker_pos self past_moves.
Proof.
  unfold is_attack_legal, attack_rules.
  destruct (decide (target_pos = attacker_pos)); [done|].
  destruct (get_node_id self target_pos) as [id|]; [|done].
  cbn [mbind result_bind].
  destruct (py_index (node_list self) id) as [ty|]; [|done].
  cbn [mbind result_bind].
  destruct (decide (ty = START)); [done|].
  destruct past_moves as [pm|]; [|by rewrite decide_False by (by intros [])].
  destruct (decide (4 ≤ length pm)%nat) as [Hlen|Hlen].
  - rewrite cycle_condition_spec by done. cbn [mbind result_bind].
    unfold anti_cycling_rejects.
    case_bool_decide; [by rewrite decide_True | by rewrite decide_False by tauto].
  - cbn [mbind result_bind]. rewrite decide_False; [done|].
    unfold anti_cycling_rejects. tauto.
Qed.

(** C3, as the specification words it, fails.  On the grid of four rows
    and one column (DATA, two servers, START; node ids 0 to 3) the attacker
    on the lower server has moved 1, 2, 1, 2 and targets node 1 again, which
    lies strictly above it: the rule as worded rejects the move, the code
    accepts it.  With the attacker on the upper server after the moves
    2, 1, 2, 1 and the target node 2, strictly below it, the rule as worded
    lets the move pass and the code rejects it. *)
Lemma is_attack_legal_anti_cycling_not_above :
  ∃ self, Topology.init 4 1 = Ok self ∧
    spec_attack_rules (1, 0) (2, 0) self (Some [1; 2; 1; 2]) = Ok false ∧
    is_attack_legal (1, 0) (2, 0) self (Some [1; 2; 1; 2]) = Ok true ∧
    spec_attack_rules (2, 0) (1, 0) self (Some [2; 1; 2; 1]) = Ok true ∧
    is_attack_legal (2, 0) (1, 0) self (Some [2; 1; 2; 1]) = Ok false.
Proof. eexists. split_and!; reflexivity. Qed.

(** With no history, or fewer than four recorded moves, the outcome is the
    one of the self-target, START-node and adjacency rules alone. *)
Lemma is_attack_legal_short_history self target_pos attacker_pos pm :
  (length pm < 4)%nat →
  is_attack_legal target_pos attacker_pos self (Some pm)
  = is_attack_legal target_pos attacker_pos self None.
Proof.
  intros Hlen. unfold is_attack_legal.
  by destruct (decide (4 ≤ length pm)%nat) as [?|_]; [lia|].
Qed.

(** ** Symmetry of the adjacency matrix *)

(** C9. The adjacency matrix built by the constructor is symmetric: every
    pair of indices below [num_rows * num_cols] has an entry, and the entry
    at [(i, j)] is the entry at [(j, i)]. *)
Theorem adjacency_matrix_symmetric nr nc self i j :
  Topology.init nr nc = Ok self →
  (i < nr * nc)%nat → (j < nr * nc)%nat →
  ∃ v, mget (adjacency_matrix self) i j = Some v ∧
       mget (adjacency_matrix self) j i = Some v.
Proof.
  intros (_ & _ & _ & HA)%init_inv Hi Hj.
  apply default_adjacency_matrix_symmetric in HA as [Hsq Hsym]. cbn in Hsq.
  destruct (mget_square _ _ i j Hsq Hi Hj) as [v Hv].
  exists v. split; [done|]. by rewrite <- Hsym.
Qed.

Lemma adjacency_matrix_symmetric_witness :
  ∃ self, Topology.init 3 2 = Ok self ∧
          ∃ v, mget (adjacency_matrix self) 1 2 = Some v ∧
               mget (adjacency_matrix self) 2 1 = Some v.
Proof.
  eexists. split; [reflexivity|].
  apply (adjacency_matrix_symmetric 3 2); [reflexivity | cbn; lia | cbn; lia].
Defined.

Example adjacency_matrix_3_2 :
  adjacency_matrix <$> Topology.init 3 2
  = Ok [[0; 0; 0; 0; 0; 0]; [0; 0; 1; 1; 0; 0]; [0; 1; 0; 0; 0; 1];
        [0; 1; 0; 0; 0; 1]; [0; 0; 0; 0; 0; 0]; [0; 0; 1; 1; 0; 0]].
Proof. reflexivity. Qed.

(** * Facts about the trainer *)

Import Trainer.

Section trainer_facts.
Context {score : Type} {arith : Arith score} {policy bot tensor : Type}.

#[local] Abbreviation PPO := (@PPO score policy bot tensor).
#[local] Abbreviation M := (@M score policy bot tensor).

(** ** The monad *)

Lemma bind_run {A B} (m : M A) (f : A → M B) (self : PPO) :
  (m ≫= f) self
  = match m self with
    | (Ok a, self') => f a self'
    | (Raise e, self') => (Raise e, self')
    end.
Proof. reflexivity. Qed.

Lemma modify_bind_run {B} (f : PPO → PPO) (k : unit → M B) (self : PPO) :
  (modify f ≫= k) self = k tt (f self).
Proof. reflexivity. Qed.

Lemma get_bind_run {B} (k : PPO → M B) (self : PPO) :
  (get ≫= k) self = k self self.
Proof. reflexivity. Qed.

Lemma lift_bind_run {A B} (r : result A) (k : A → M B) (self : PPO) :
  (lift r ≫= k) self
  = match r with Ok a => k a self | Raise e => (Raise e, self) end.
Proof. by destruct r. Qed.

Lemma preserves_ret (P : PPO → Prop) {A} (a : A) : preserves P (mret a : M A).
Proof. by intros self H. Qed.

Lemma preserves_raise (P : PPO → Prop) {A} (e : exn) : preserves P (raise e : M A).
Proof. by intros self H. Qed.

Lemma preserves_lift (P : PPO → Prop) {A} (r : result A) : preserves P (lift r : M A).
Proof. by intros self H. Qed.

Lemma preserves_get (P : PPO → Prop) : preserves P (get : M PPO).
Proof. by intros self H. Qed.

Lemma preserves_bound (P : PPO → Prop) {A} (x : option A) :
  preserves P (bound x : M A).
Proof. by destruct x; intros self H. Qed.

Lemma preserves_modify (P : PPO → Prop) (f : PPO → PPO) :
  (∀ self, P self → P (f self)) → preserves P (modify f).
Proof. intros Hf self H. by apply Hf. Qed.

Lemma preserves_bind (P : PPO → Prop) {A B} (m : M A) (f : A → M B) :
  preserves P m → (∀ a, preserves P (f a)) → preserves P (m ≫= f).
Proof.
  intros Hm Hf self H. rewrite bind_run. specialize (Hm self H).
  destruct (m self) as [[a|e] self']; cbn in *; [by apply Hf|done].
Qed.

Lemma preserves_when (P : PPO → Prop) (b : bool) (m : M unit) :
  preserves P m → preserves P (when b m).
Proof. destruct b; [done|]. intros _. apply preserves_ret. Qed.

End trainer_facts.

(** One step of a proof that a method keeps a property: follow the
    structure of the method; an attribute write is settled by [frame], a
    proof that the property only looks at the bookkeeping attributes. *)
Ltac preserves_step frame :=
  lazymatch goal with
  | |- preserves _ (mret _) => apply preserves_ret
  | |- preserves _ (raise _) => apply preserves_raise
  | |- preserves _ (lift _) => apply preserves_lift
  | |- preserves _ get => apply preserves_get
  | |- preserves _ (bound _) => apply preserves_bound
  | |- preserves _ (when _ _) => apply preserves_when
  | |- preserves _ (modify _) =>
      apply preserves_modify; let s := fresh "self" in
      let H := fresh "H" in
      intros s H; apply (frame s); [try reflexivity | exact H]
  | |- preserves _ (mbind _ _) => apply preserves_bind; [|intros ?]
  | |- preserves _ (if ?b then _ else _) => destruct b
  | |- preserves _ (match ?x with _ => _ end) => destruct x
  end.

Section bookkeeping.
Context {score : Type} {arith : Arith score} {policy bot tensor : Type}.

#[local] Abbreviation PPO := (@PPO score policy bot tensor).
#[local] Abbreviation M := (@M score policy bot tensor).

Implicit Types (cfg : @PolicyGradientAgentConfig score) (self : PPO).

(** ** The episode bookkeeping

    A property of the bookkeeping attributes that the two places which
    write them keep is kept by every modelled method. *)
Section frame.
Variable P : PPO → Prop.

Hypothesis P_frame : ∀ self self',
  bookkeeping self' = bookkeeping self → P self → P self'.
Hypothesis P_record_episode : ∀ w, preserves P (record_episode w : M _).
Hypothesis P_log_hack_probabilities :
  preserves P (log_hack_probabilities : M _).

Lemma get_pool_quality_scores_frame b :
  preserves P (get_pool_quality_scores b : M _).
Proof. unfold get_pool_quality_scores. repeat preserves_step P_frame. Qed.

Lemma pool_config_attr_frame cfg : preserves P (pool_config_attr cfg : M _).
Proof. unfold pool_config_attr. repeat preserves_step P_frame. Qed.

Lemma add_model_to_pool_frame cfg b :
  preserves P (add_model_to_pool cfg b : M _).
Proof.
  unfold add_model_to_pool, pool_pop_0, pool_append.
  repeat first [apply get_pool_quality_scores_frame | preserves_step P_frame];
    by destruct b.
Qed.

Lemma update_quality_score_frame cfg idx b :
  preserves P (update_quality_score cfg idx b : M _).
Proof.
  unfold update_quality_score.
  repeat first [apply get_pool_quality_scores_frame
               | apply pool_config_attr_frame | preserves_step P_frame];
    by destruct b.
Qed.

Lemma sample_opponent_frame cfg b draw :
  preserves P (sample_opponent cfg b draw : M _).
Proof.
  unfold sample_opponent.
  repeat first [apply get_pool_quality_scores_frame
               | apply pool_config_attr_frame | preserves_step P_frame].
Qed.

Lemma pool_member_frame cfg b idx : preserves P (pool_member cfg b idx : M _).
Proof.
  unfold pool_member.
  repeat first [apply pool_config_attr_frame | preserves_step P_frame].
Qed.

Lemma choose_actions_frame cfg w L : preserves P (choose_actions cfg w L : M _).
Proof.
  unfold choose_actions, opponent_attr, opponent_forward, opponent_action.
  repeat preserves_step P_frame.
Qed.

Lemma reshape_actions_frame cfg sp L :
  preserves P (reshape_actions cfg sp L : M _).
Proof. unfold reshape_actions, reshape. repeat preserves_step P_frame. Qed.

Lemma add_to_buffers_frame cfg w L : preserves P (add_to_buffers cfg w L : M _).
Proof.
  unfold add_to_buffers, buffer_add. repeat preserves_step P_frame.
Qed.

Lemma update_pool_qualities_frame cfg w :
  preserves P (update_pool_qualities cfg w : M _).
Proof.
  unfold update_pool_qualities.
  repeat first [apply update_quality_score_frame | preserves_step P_frame].
Qed.

Lemma resample_opponents_frame cfg w :
  preserves P (resample_opponents cfg w : M _).
Proof.
  unfold resample_opponents.
  repeat first [apply sample_opponent_frame | apply pool_member_frame
               | apply pool_config_attr_frame | preserves_step P_frame].
Qed.

Lemma rollout_step_frame cfg sp ne w L :
  preserves P (rollout_step cfg sp ne w L : M _).
Proof.
  unfold rollout_step.
  repeat first [apply choose_actions_frame
               | apply reshape_actions_frame
               | apply add_to_buffers_frame
               | apply P_record_episode
               | apply update_pool_qualities_frame
               | apply resample_opponents_frame
               | preserves_step P_frame].
Qed.

Lemma rollout_loop_frame cfg sp ne world remaining k L :
  preserves P (rollout_loop cfg sp ne world remaining k L : M _).
Proof.
  revert k L. induction remaining as [|n IH]; intros k L; cbn [rollout_loop].
  - apply preserves_ret.
  - apply preserves_bind; [apply rollout_step_frame|].
    intros [L'|]; [apply IH | apply preserves_ret].
Qed.

Lemma collect_rollouts_frame cfg sp ne world n :
  preserves P (collect_rollouts cfg sp ne world n : M _).
Proof.
  unfold collect_rollouts, compute_returns_and_advantage.
  repeat first [apply rollout_loop_frame | preserves_step P_frame].
Qed.

Lemma advance_pools_frame cfg LL : preserves P (advance_pools cfg LL : M _).
Proof.
  unfold advance_pools.
  repeat first [apply add_model_to_pool_frame | preserves_step P_frame].
Qed.

Lemma log_training_frame cfg LL : preserves P (log_training cfg LL : M _).
Proof.
  unfold log_training. apply preserves_bind; [|intros _].
  - apply P_log_hack_probabilities.
  - apply advance_pools_frame.
Qed.

Lemma alternate_frame cfg LL : preserves P (alternate cfg LL : M _).
Proof. unfold alternate. repeat preserves_step P_frame. Qed.

Lemma learn_iteration_frame cfg sp ne n w LL :
  preserves P (learn_iteration cfg sp ne n w LL : M _).
Proof.
  unfold learn_iteration.
  repeat first [apply collect_rollouts_frame
               | apply log_training_frame
               | apply alternate_frame | preserves_step P_frame].
Qed.

Lemma learn_loop_frame cfg sp ne n total world fuel i LL :
  preserves P (learn_loop cfg sp ne n total world fuel i LL : M _).
Proof.
  revert i LL. induction fuel as [|fuel IH]; intros i LL; cbn [learn_loop].
  - apply preserves_ret.
  - repeat first [apply learn_iteration_frame | apply IH | preserves_step P_frame].
Qed.

End frame.

Lemma bookkeeping_ok_frame self self' :
  bookkeeping self' = bookkeeping self → bookkeeping_ok self → bookkeeping_ok self'.
Proof.
  unfold bookkeeping, bookkeeping_ok, counters_ok, probabilities_ok.
  intros [= -> -> -> -> -> ->]. done.
Qed.

(** An episode end counts a game, and a hack only together with a game. *)
Lemma record_episode_bookkeeping w :
  preserves bookkeeping_ok (record_episode w : M _).
Proof.
  intros self [[Hw Ht] Hp]. unfold record_episode. destruct self.
  destruct (w_prev_episode_hacked w);
    unfold when, mbind, M_bind, modify, mret, M_ret; cbn;
    (split; [split; simpl in *; lia | exact Hp]).
Qed.

Lemma ratio_bounds a b : 0 <= a <= b → b > 0 → (0 <= ratio a b <= 1)%R.
Proof.
  intros [Ha Hab] Hb. unfold ratio.
  assert (0 < IZR b)%R as Hb' by (apply IZR_lt; lia).
  assert (0 <= IZR a)%R as Ha' by (apply IZR_le; lia).
  assert (IZR a <= IZR b)%R as Hab' by (apply IZR_le; lia).
  split.
  - apply Rmult_le_pos; [lra | apply Rlt_le, Rinv_0_lt_compat; lra].
  - apply (Rmult_le_reg_r (IZR b)); [lra|]. unfold Rdiv.
    rewrite Rmult_assoc, Rinv_l by lra. lra.
Qed.

(** The logging branch computes both probabilities from counters that
    satisfy the invariant, and resets the two window counters together. *)
Lemma log_hack_probabilities_bookkeeping :
  preserves bookkeeping_ok (log_hack_probabilities : M _).
Proof.
  intros self [[Hw Ht] _]. unfold log_hack_probabilities.
  rewrite get_bind_run. destruct self. simpl in Hw, Ht.
  destruct (decide _) as [[Hg Hgt]|_];
    unfold mbind, M_bind, modify; simpl in *.
  - split; [split; simpl; lia|]. split; simpl; by apply ratio_bounds.
  - split; [split; simpl; lia|]. split; simpl; lra.
Qed.

Lemma totals_at_least_frame g h self self' :
  bookkeeping self' = bookkeeping self →
  totals_at_least g h self → totals_at_least g h self'.
Proof. unfold bookkeeping, totals_at_least. intros [= _ _ -> -> _ _]. done. Qed.

Lemma record_episode_totals g h w :
  preserves (totals_at_least g h) (record_episode w : M _).
Proof.
  intros self [Hg Hh]. unfold record_episode. destruct self.
  destruct (w_prev_episode_hacked w);
    unfold when, mbind, M_bind, modify, mret, M_ret; cbn;
    (split; simpl in *; lia).
Qed.

Lemma log_hack_probabilities_totals g h :
  preserves (totals_at_least g h) (log_hack_probabilities : M _).
Proof.
  intros self [Hg Hh]. unfold log_hack_probabilities.
  rewrite get_bind_run. destruct self. simpl in Hg, Hh.
  destruct (decide _) as [?|_];
    unfold mbind, M_bind, modify; simpl in *; (split; simpl; lia).
Qed.

End bookkeeping.

(** ** Rollout collection for a side whose train flag is off *)

Section rollouts.
Context {score : Type} {arith : Arith score} {policy bot tensor : Type}.

#[local] Abbreviation PPO := (@PPO score policy bot tensor).
#[local] Abbreviation M := (@M score policy bot tensor).

(** Without an opponent pool the attacker's row is added whatever the train
    flag says, from variables that only the attacker's branch binds: with
    the attacker a learning agent whose train flag is off, the first pass of
    the loop, when the callback lets it continue, raises before any row is
    added to either buffer: [AttributeError] from the reshape of the list
    [[0]] with a discrete action space, [UnboundLocalError] from the unbound
    [attacker_values] otherwise.  The attacker's buffer has been reset; the
    defender's has been reset when the defender is a learning agent and is
    untouched otherwise. *)
Lemma collect_rollouts_train_flag_off cfg sp ne (world : nat → step_world) n
    (self : PPO) :
  attacker cfg = true → pool_mode cfg = false →
  train_attacker self = false →
  0 < n → w_on_step (world 0%nat) = true →
  let r := collect_rollouts cfg sp ne world n self in
  r.1 = Raise (match sp with
               | Discrete => AttributeError
               | _ => UnboundLocalError
               end) ∧
  attacker_rollout_buffer r.2 = [] ∧
  defender_rollout_buffer r.2
    = if defender cfg then [] else defender_rollout_buffer self.
Proof.
  intros Ha Hpool Htrain Hn Hstep.
  destruct (Z.to_nat n) as [|m] eqn:Hm; [lia|].
  unfold collect_rollouts. rewrite Hm. cbn [rollout_loop].
  unfold rollout_step, choose_actions, reshape_actions, add_to_buffers,
    buffer_add, reshape.
  rewrite Hpool, Ha, Hstep.
  destruct self. simpl in Htrain. subst.
  destruct (world 0%nat) as [[[? ?] ?] [[? ?] ?] ? ? ? ? ? ? ? ? ? ? ? ? ? ? ?].
  destruct (defender cfg), train_defender0, sp; cbn; by split_and!.
Qed.

End rollouts.

(** C4. On the example trainer (both sides learning agents, no opponent
    pool) with the attacker's train flag off, [collect_rollouts] for two
    steps raises in its first pass; the defender, whose train flag is on,
    has no row in its buffer, not two. *)
Theorem collect_rollouts_untrained_side_raises :
  let r := collect_rollouts example_config Discrete 1 (fun _ => example_step) 2
             (example_trainer false true) in
  r.1 = Raise AttributeError ∧
  length (attacker_rollout_buffer r.2) = 0%nat ∧
  length (defender_rollout_buffer r.2) = 0%nat.
Proof. cbv zeta. split_and!; reflexivity. Qed.

(** With both train flags on, the same call fills both buffers. *)
Example collect_rollouts_both_trained :
  let r := collect_rollouts example_config Discrete 1 (fun _ => example_step) 2
             (example_trainer true true) in
  is_Ok r.1 ∧
  length (attacker_rollout_buffer r.2) = 2%nat ∧
  length (defender_rollout_buffer r.2) = 2%nat.
Proof. cbv zeta. split_and!; reflexivity. Qed.

(** In [learn] the state that raises is reached: after the first iteration
    the alternation turns the attacker's train flag off, and the second
    rollout raises. *)
Example learn_alternating_without_pool_raises :
  (learn example_config Discrete 1 2 8 true (fun _ => example_iteration) 10
     (example_trainer true true)).1 = Raise AttributeError.
Proof. reflexivity. Qed.

(** ** The invariant of the episode bookkeeping *)

(** C10. Every modelled method keeps the episode bookkeeping consistent,
    whether it returns or raises: after [learn] (for any number of passes of
    its loop), after [collect_rollouts], and after any number of passes of
    the rollout loop, the window and the cumulative hack counters are
    between 0 and the corresponding games counters, and both hack
    probabilities are between 0 and 1. *)
Theorem hack_counters_invariant {score : Type} {arith : Arith score}
    {policy bot tensor : Type}
    (self : @PPO score policy bot tensor) :
  bookkeeping_ok self →
  (∀ cfg sp ne n total reset world fuel,
     bookkeeping_ok (learn cfg sp ne n total reset world fuel self).2) ∧
  (∀ cfg sp ne world n,
     bookkeeping_ok (collect_rollouts cfg sp ne world n self).2) ∧
  (∀ cfg sp ne world passes k L,
     bookkeeping_ok (rollout_loop cfg sp ne world passes k L self).2).
Proof.
  intros H.
  pose proof (@bookkeeping_ok_frame score policy bot tensor) as Hframe.
  pose proof (@record_episode_bookkeeping score policy bot tensor) as Hrec.
  pose proof (@log_hack_probabilities_bookkeeping score policy bot tensor) as Hlog.
  split_and!.
  - intros.
    enough (preserves bookkeeping_ok
              (learn cfg sp ne n total reset world fuel : M _)) as Hp
      by exact (Hp self H).
    unfold learn.
    repeat first [by apply learn_loop_frame | preserves_step Hframe].
  - intros. by apply collect_rollouts_frame.
  - intros. by apply rollout_loop_frame.
Qed.

Lemma hack_counters_invariant_witness :
  bookkeeping_ok (example_trainer true true) ∧
  bookkeeping_ok
    (learn example_config Discrete 1 2 8 true (fun _ => example_iteration) 10
       (example_trainer true true)).2.
Proof.
  assert (bookkeeping_ok (example_trainer true true)) as H.
  { split; split; simpl; (lia || lra). }
  split; [exact H|].
  apply (proj1 (hack_counters_invariant (example_trainer true true) H)).
Defined.

(** The cumulative counters never decrease. *)
Lemma totals_never_decrease {score : Type} {arith : Arith score}
    {policy bot tensor : Type}
    (self : @PPO score policy bot tensor) cfg sp ne n total reset world fuel :
  let self' := (learn cfg sp ne n total reset world fuel self).2 in
  num_train_games_total self <= num_train_games_total self' ∧
  num_train_hacks_total self <= num_train_hacks_total self'.
Proof.
  cbv zeta.
  pose proof (@totals_at_least_frame score policy bot tensor
                (num_train_games_total self) (num_train_hacks_total self)) as Hframe.
  pose proof (@record_episode_totals score policy bot tensor
                (num_train_games_total self) (num_train_hacks_total self)) as Hrec.
  pose proof (@log_hack_probabilities_totals score policy bot tensor
                (num_train_games_total self) (num_train_hacks_total self)) as Hlog.
  enough (preserves
            (totals_at_least (num_train_games_total self) (num_train_hacks_total self))
            (learn cfg sp ne n total reset world fuel : M _)) as Hp
    by (apply (Hp self); split; lia).
  unfold learn.
  repeat first [by apply learn_loop_frame | preserves_step Hframe].
Qed.

(** ** The opponent pool *)

Section pool.
Context {score : Type} {arith : Arith score} {policy bot tensor : Type}.

#[local] Abbreviation PPO := (@PPO score policy bot tensor).
#[local] Abbreviation M := (@M score policy bot tensor).
#[local] Abbreviation pool_entry := (@pool_entry score policy bot).

Implicit Types (cfg : @PolicyGradientAgentConfig score) (self : PPO)
  (pool : list pool_entry).

Lemma pool_of_set_pool b pool self : pool_of b (set_pool b pool self) = pool.
Proof. by destruct b. Qed.

Lemma pool_of_set_pool_other b pool self :
  pool_of (negb b) (set_pool b pool self) = pool_of (negb b) self.
Proof. by destruct b. Qed.


Lemma mapM_entry_quality pool :
  Forall scored pool → mapM entry_quality pool = Ok (entry_scores pool).
Proof.
  induction 1 as [|[o q|o] pool Hx _ IH]; [done| |done].
  cbn [mapM]. cbn. by rewrite IH.
Qed.


Lemma entry_scores_lookup pool i o q :
  Forall scored pool → pool !! i = Some (Scored o q) →
  entry_scores pool !! i = Some q.
Proof.
  intros H. revert i. induction H as [|[o' q'|o'] pool Hx _ IH]; intros i;
    [done| |done].
  destruct i as [|i]; cbn; [by intros [= _ ->]|apply IH].
Qed.

End pool.

(** ** The pool with exact scores *)

Section pool_exact.
Context {policy bot tensor : Type}.

#[local] Abbreviation PPO := (@PPO R policy bot tensor).
#[local] Abbreviation M := (@M R policy bot tensor).
#[local] Abbreviation pool_entry := (@pool_entry R policy bot).

Implicit Types (cfg : @PolicyGradientAgentConfig R) (self : PPO)
  (pool : list pool_entry).




End pool_exact.



(** The scenario of the specification: from an empty pool with initial
    quality 1, the first snapshot gets score 1, and so does the second, added
    below capacity; a third one evicts the first. *)
Example add_model_to_pool_scenario :
  let add := add_model_to_pool example_config_with_pool true in
  let s0 := example_trainer true false in
  let s1 := (add s0).2 in
  let s2 := (add s1).2 in
  let s3 := (add s2).2 in
  attacker_pool s1 = [Scored (PolicyOpponent tt) 1%R] ∧
  attacker_pool s2 = [Scored (PolicyOpponent tt) 1%R; Scored (PolicyOpponent tt) 1%R] ∧
  length (attacker_pool s3) = 2%nat.
Proof. cbv zeta. split_and!; reflexivity. Qed.

(** ** Quality scores *)

Lemma sum_exp_nonneg (l : list R) : (0 <= foldr Rplus 0 (exp <$> l))%R.
Proof.
  induction l as [|x l IH]; cbn; [lra|].
  pose proof (exp_pos x). lra.
Qed.

Lemma sum_exp_pos (l : list R) x :
  x ∈ l → (0 < foldr Rplus 0 (exp <$> l))%R.
Proof.
  induction 1 as [x l|x y l _ IH]; cbn.
  - pose proof (exp_pos x). pose proof (sum_exp_nonneg l). lra.
  - pose proof (exp_pos y). lra.
Qed.

(** The softmax of a non-empty list of real numbers is defined, and every
    probability in it is positive. *)
Lemma softmax_lookup_pos (l : list R) i q :
  l !! i = Some q →
  ∃ dist p, softmax l = Ok dist ∧ dist !! i = Some p ∧ (0 < p)%R.
Proof.
  intros Hq. unfold softmax. destruct l as [|x l]; [done|].
  eexists _, _. split; [reflexivity|].
  rewrite list_lookup_fmap, Hq. split; [reflexivity|].
  apply Rdiv_lt_0_compat; [apply exp_pos|].
  eapply sum_exp_pos, list_elem_of_lookup_2, Hq.
Qed.

Lemma py_position_nat (n i : nat) :
  (i < n)%nat → py_position n (Z.of_nat i) = Ok i.
Proof.
  intros Hi. unfold py_position. cbn zeta.
  destruct (decide (Z.of_nat i < 0)) as [?|_]; [lia|].
  destruct (decide _) as [_|?]; [|lia]. by rewrite Nat2Z.id.
Qed.

Section quality.
Context {score : Type} {arith : Arith score} {policy bot tensor : Type}.

#[local] Abbreviation PPO := (@PPO score policy bot tensor).
#[local] Abbreviation M := (@M score policy bot tensor).

(** What [update_quality_score] does at a valid index [i] of a pool whose
    entries all carry a score, when the softmax of the library answers the
    distribution [dist]. *)
Lemma update_quality_score_run (cfg : @PolicyGradientAgentConfig score) opc b
    (self : PPO) (i : nat) o q dist p :
  opponent_pool_config cfg = Some opc →
  Forall scored (pool_of b self) →
  pool_of b self !! i = Some (Scored o q) →
  f_softmax (entry_scores (pool_of b self)) = Ok dist →
  dist !! i = Some p →
  update_quality_score cfg (Z.of_nat i) b self
  = (Ok tt,
     set_pool b
       (<[i := Scored o
                 (f_sub q (f_div (quality_score_eta opc)
                                 (f_mul (f_of_nat (length (pool_of b self))) p)))]>
          (pool_of b self)) self).
Proof.
  intros Hopc Hscored Hi Hsm Hp.
  pose proof (lookup_lt_Some _ _ _ Hi) as Hlt.
  unfold update_quality_score. rewrite get_bind_run.
  rewrite bind_run. unfold get_pool_quality_scores.
  rewrite get_bind_run. unfold lift at 1.
  rewrite mapM_entry_quality by done. unfold get_softmax_distribution.
  rewrite lift_bind_run, Hsm.
  rewrite lift_bind_run, (py_index_nat _ _ _ Hp).
  rewrite lift_bind_run, (py_index_nat _ _ _ Hi).
  rewrite lift_bind_run. cbn [entry_quality].
  rewrite bind_run. unfold pool_config_attr. rewrite Hopc. cbn [mret M_ret].
  rewrite lift_bind_run, py_position_nat by done. reflexivity.
Qed.

(** C6, as amended. [update_quality_score] at a valid index [i] of a pool
    whose entries all carry a score, in whatever arithmetic the scores are
    computed: with [p] the entry at [i] of the softmax of the scores and [N]
    the size of the pool, the call returns, the score [q] of entry [i] of the
    pool has become [q - eta / (N * p)] as that arithmetic computes it, and
    every other entry of the pool, the size of the pool, the other pool and
    every other attribute are as they were.  (That the new score is strictly
    below [q] is not part of it: it holds in exact arithmetic and fails in
    binary64.) *)
Theorem update_quality_score_decreases (cfg : @PolicyGradientAgentConfig score)
    opc b (self : PPO) (i : nat) o q dist p :
  opponent_pool_config cfg = Some opc →
  Forall scored (pool_of b self) →
  pool_of b self !! i = Some (Scored o q) →
  f_softmax (entry_scores (pool_of b self)) = Ok dist →
  dist !! i = Some p →
  let N := f_of_nat (length (pool_of b self)) in
  let q' := f_sub q (f_div (quality_score_eta opc) (f_mul N p)) in
  ∃ self',
    update_quality_score cfg (Z.of_nat i) b self = (Ok tt, self') ∧
    pool_of b self' !! i = Some (Scored o q') ∧
    (∀ j, j ≠ i → pool_of b self' !! j = pool_of b self !! j) ∧
    length (pool_of b self') = length (pool_of b self) ∧
    pool_of (negb b) self' = pool_of (negb b) self ∧
    self' = set_pool b (pool_of b self') self.
Proof.
  intros Hopc Hscored Hi Hsm Hp N q'.
  pose proof (lookup_lt_Some _ _ _ Hi) as Hlt.
  eexists. split; [by eapply update_quality_score_run|].
  rewrite pool_of_set_pool, pool_of_set_pool_other, length_insert.
  split_and!; [|  |done..].
  - by apply list_lookup_insert_eq.
  - intros j Hj. by apply list_lookup_insert_ne.
Qed.

End quality.

Section quality_exact.
Context {policy bot tensor : Type}.

#[local] Abbreviation PPO := (@PPO R policy bot tensor).

(** In exact arithmetic the softmax is defined on the scores of a non-empty
    pool, and for a positive [eta] the new score is strictly below the old
    one. *)
Lemma update_quality_score_exact_decreases (cfg : @PolicyGradientAgentConfig R)
    opc b (self : PPO) (i : nat) o q :
  opponent_pool_config cfg = Some opc →
  Forall scored (pool_of b self) →
  pool_of b self !! i = Some (Scored o q) →
  (0 < quality_score_eta opc)%R →
  ∃ q', pool_of b (update_quality_score cfg (Z.of_nat i) b self).2 !! i
        = Some (Scored o q') ∧ (q' < q)%R.
Proof.
  intros Hopc Hscored Hi Heta.
  pose proof (lookup_lt_Some _ _ _ Hi) as Hlt.
  pose proof (entry_scores_lookup _ _ _ _ Hscored Hi) as Hq.
  destruct (softmax_lookup_pos _ _ _ Hq) as (dist & p & Hsm & Hp & Hpos).
  rewrite (update_quality_score_run cfg opc b self i o q dist p) by done.
  cbn [snd]. rewrite pool_of_set_pool.
  eexists. split; [by apply list_lookup_insert_eq|].
  cbn [f_sub f_div f_mul f_of_nat exact].
  assert (0 < INR (length (pool_of b self)))%R as HN by (apply lt_0_INR; lia).
  assert (0 < quality_score_eta opc / (INR (length (pool_of b self)) * p))%R.
  { apply Rdiv_lt_0_compat; [done|]. by apply Rmult_lt_0_compat. }
  lra.
Qed.

End quality_exact.

Lemma update_quality_score_decreases_witness :
  let self : @PPO R unit unit unit :=
    set_defender_pool [Scored (PolicyOpponent tt) 1%R; Scored (PolicyOpponent tt) 2%R]
      (example_trainer true false) in
  let total := (exp 1 + (exp 2 + 0))%R in
  let q' := (2 - 1 / 100 / (INR 2 * (exp 2 / total)))%R in
  ∃ self',
    update_quality_score example_config_with_pool 1 false self = (Ok tt, self') ∧
    pool_of false self' !! 1%nat = Some (Scored (PolicyOpponent tt) q') ∧
    (∀ j, j ≠ 1%nat → pool_of false self' !! j = pool_of false self !! j) ∧
    length (pool_of false self') = length (pool_of false self) ∧
    pool_of (negb false) self' = pool_of (negb false) self ∧
    self' = set_pool false (pool_of false self') self.
Proof.
  assert (Forall scored
            (pool_of false
               (set_defender_pool
                  [Scored (PolicyOpponent tt) 1%R; Scored (PolicyOpponent tt) 2%R]
                  (example_trainer true false)))) as Hscored
    by (repeat constructor).
  exact (update_quality_score_decreases example_config_with_pool
           example_pool_config false
           (set_defender_pool
              [Scored (PolicyOpponent tt) 1%R; Scored (PolicyOpponent tt) 2%R]
              (example_trainer true false))
           1 (PolicyOpponent tt) 2%R
           [(exp 1 / (exp 1 + (exp 2 + 0)))%R; (exp 2 / (exp 1 + (exp 2 + 0)))%R]
           (exp 2 / (exp 1 + (exp 2 + 0)))%R
           eq_refl Hscored eq_refl eq_refl eq_refl).
Defined.

(** C6, as stated, fails in the arithmetic of the code.  A pool of one
    opponent with score 1.0 and the learning rate 2^-60, which is positive:
    the softmax probability is 1.0, the decrement 2^-60 / (1 * 1.0) is less
    than half the distance from 1.0 to the next number below it, and the
    subtraction returns 1.0: the score has not decreased. *)
Lemma update_quality_score_not_decreased :
  let self : @PPO float unit unit unit :=
    set_attacker_pool [Scored (BotOpponent tt) 1%float] (initial_trainer true false) in
  let r := update_quality_score (arith := binary64 softmax_of_one_score)
             binary64_config 0 true self in
  PrimFloat.ltb 0 (quality_score_eta binary64_pool_config) = true ∧
  r.1 = Ok tt ∧
  pool_of true r.2 = [Scored (BotOpponent tt) 1%float].
Proof. cbv zeta. split_and!; reflexivity. Qed.

(** The same for every softmax function that answers [[1.0]] on the single
    score 1.0. *)
Lemma update_quality_score_not_decreased_any_softmax
    (softmax : list float → result (list float)) :
  softmax [1%float] = Ok [1%float] →
  let self : @PPO float unit unit unit :=
    set_attacker_pool [Scored (BotOpponent tt) 1%float] (initial_trainer true false) in
  pool_of true
    (update_quality_score (arith := binary64 softmax) binary64_config 0 true self).2
  = [Scored (BotOpponent tt) 1%float].
Proof.
  intros Hsm. cbv zeta.
  unfold update_quality_score, get_pool_quality_scores, get_softmax_distribution.
  unfold mbind, M_bind, get, lift. cbn [mapM entry_quality pool_of set_attacker_pool
    initial_trainer attacker_pool mbind mret fmap].
  simpl. rewrite Hsm. reflexivity.
Qed.

(** * Further facts about the topology *)

(** ** The constructor *)

(** The DATA cell is the first cell of its type in row-major order and the
    only one, likewise the START cell: on a grid with at least two rows and
    one column the constructor succeeds, [data_pos] is the middle of the top
    row and [start_pos] the middle of the bottom row. *)
Theorem start_pos_data_pos nr nc :
  (2 ≤ nr)%nat → (1 ≤ nc)%nat →
  ∃ self, Topology.init nr nc = Ok self ∧
          data_pos self = Ok (0, Z.of_nat (nc `div` 2)) ∧
          start_pos self = Ok (Z.of_nat nr - 1, Z.of_nat (nc `div` 2)).
Proof.
  intros Hr Hc. pose proof (init_total nr nc Hr Hc) as Hok.
  destruct (Topology.init nr nc) as [self|] eqn:Hinit; [|done].
  exists self. split; [done|].
  apply init_inv in Hinit as (Hnr & Hnc & Hl & _).
  destruct self as [nr' nc' g A]. cbn in Hnr, Hnc, Hl. subst.
  split.
  - destruct (data_pos_default nr nc A Hr Hc) as (i & j & -> & Hi & Hj & Hty).
    rewrite layout_at_default in Hty by done. unfold layout_cell in Hty.
    repeat case_decide; try discriminate. subst. do 2 f_equal.
  - destruct (start_pos_default nr nc A ltac:(lia) Hc) as (i & j & -> & Hi & Hj & Hty).
    rewrite layout_at_default in Hty by done. unfold layout_cell in Hty.
    repeat case_decide; try discriminate. subst. do 2 f_equal. lia.
Qed.

Lemma start_pos_data_pos_witness :
  ∃ self, Topology.init 3 2 = Ok self ∧
          data_pos self = Ok (0, Z.of_nat (2 `div` 2)) ∧
          start_pos self = Ok (Z.of_nat 3 - 1, Z.of_nat (2 `div` 2)).
Proof. apply (start_pos_data_pos 3 2); lia. Defined.

Lemma foldl_bind_Raise {A B} (f : A → B → result A) (e : exn) (l : list B) :
  foldl (fun acc x => a ← acc; f a x) (Raise e) l = Raise e.
Proof. by induction l. Qed.

(** With a single row the bottom row is the top row: the layout has a START
    cell and no DATA cell, and the constructor raises while it builds the
    adjacency matrix. *)
Theorem init_single_row_raises nc :
  (1 ≤ nc)%nat → Topology.init 1 nc = Raise AssertionError.
Proof.
  intros Hc. unfold Topology.init.
  set (self := mkNetworkConfig 1 nc _ []).
  assert (data_pos self = Raise AssertionError) as Hdata.
  { destruct (data_pos self) as [p|e] eqn:Hp.
    - apply find_pos_Ok in Hp as (i & j & _ & Hin & Hty).
      apply elem_of_index_pairs in Hin as [Hi Hj]. cbn in Hi, Hj.
      subst self. rewrite layout_at_default in Hty by done.
      unfold layout_cell in Hty. repeat case_decide; (discriminate || lia).
    - unfold data_pos in Hp. clear -Hp.
      induction (cells self) as [|[i j] cs IH]; cbn in Hp; [congruence|].
      case_decide; [discriminate|auto]. }
  unfold default_adjacency_matrix. cbn [num_rows num_cols self].
  destruct (index_pairs_head (1 * nc) (1 * nc)) as [rest ->]; [lia..|].
  cbn [foldl]. cbn [mbind result_bind].
  unfold adjacency_body at 2. unfold data_row. rewrite Hdata. cbn.
  by rewrite foldl_bind_Raise.
Qed.

Lemma init_single_row_raises_witness : Topology.init 1 2 = Raise AssertionError.
Proof. apply (init_single_row_raises 2). lia. Defined.

(** ** Node ids and positions *)

(** The id of an occupied cell of the grid is an index of [node_list], and
    [node_list] holds the type of the cell there. *)
Theorem get_node_id_of_occupied self i j :
  (i < num_rows self)%nat → (j < num_cols self)%nat → occupied self (i, j) →
  ∃ k : nat,
    get_node_id self (Z.of_nat i, Z.of_nat j) = Ok (Z.of_nat k) ∧
    node_list self !! k = Some (layout_at self i j).
Proof.
  intros Hi Hj Hocc.
  assert ((i, j) ∈ cells self) as Hin by (by apply elem_of_index_pairs).
  destruct (get_node_id_from_occupied self i j 0 _ Hin Hocc) as (k & Hk & Hlk).
  exists k. split; [by rewrite Z.add_0_l in Hk|].
  apply (node_list_lookup self k (i, j) Hlk).
Qed.

Lemma get_node_id_of_occupied_witness :
  ∃ self, Topology.init 3 2 = Ok self ∧
    ∃ k : nat,
      get_node_id self (Z.of_nat 1, Z.of_nat 1) = Ok (Z.of_nat k) ∧
      node_list self !! k = Some (layout_at self 1 1).
Proof.
  eexists. split; [reflexivity|].
  apply get_node_id_of_occupied; [cbn; lia | cbn; lia | by vm_compute].
Defined.

(** The id of an EMPTY cell of the grid is -1. *)
Theorem get_node_id_of_empty self i j :
  (i < num_rows self)%nat → (j < num_cols self)%nat →
  layout_at self i j = EMPTY →
  get_node_id self (Z.of_nat i, Z.of_nat j) = Ok (-1).
Proof.
  intros Hi Hj Hty. unfold get_node_id. cbn [fst snd].
  apply get_node_id_from_empty.
  - by apply elem_of_index_pairs.
  - unfold occupied. cbn [fst snd]. by intros [].
Qed.

Lemma get_node_id_of_empty_witness :
  ∃ self, Topology.init 3 2 = Ok self ∧
          get_node_id self (Z.of_nat 0, Z.of_nat 0) = Ok (-1).
Proof.
  eexists. split; [reflexivity|].
  apply get_node_id_of_empty; [cbn; lia | cbn; lia | reflexivity].
Defined.

Lemma get_node_id_from_absent self row col count cs :
  (∀ i j, (i, j) ∈ cs → ¬ (row = Z.of_nat i ∧ col = Z.of_nat j)) →
  get_node_id_from self row col count cs = Raise ValueError.
Proof.
  revert count. induction cs as [|[i j] cs IH]; intros count H; [done|].
  cbn [get_node_id_from]. rewrite decide_False by (apply H; left).
  apply IH. intros i' j' Hin. apply H. by right.
Qed.

(** A position outside the grid has no id: [get_node_id] raises. *)
Theorem get_node_id_outside self row col :
  ¬ (0 <= row < Z.of_nat (num_rows self) ∧ 0 <= col < Z.of_nat (num_cols self)) →
  get_node_id self (row, col) = Raise ValueError.
Proof.
  intros Hout. unfold get_node_id. cbn [fst snd].
  apply get_node_id_from_absent.
  intros i j [Hi Hj]%elem_of_index_pairs [-> ->]. apply Hout. lia.
Qed.

Lemma get_node_id_outside_witness :
  ∃ self, Topology.init 3 2 = Ok self ∧
          get_node_id self (3, 0) = Raise ValueError.
Proof.
  eexists. split; [reflexivity|].
  apply get_node_id_outside. cbn. lia.
Defined.

Lemma get_node_pos_from_returns self n count cs pos :
  get_node_pos_from self n count cs = Ok pos ↔
  ∃ pre post i j,
    cs = pre ++ (i, j) :: post ∧ pos = (Z.of_nat i, Z.of_nat j) ∧
    count + Z.of_nat (length (filter (occupied self) pre)) = n ∧
    ∀ k, (k < length pre)%nat →
         count + Z.of_nat (length (filter (occupied self) (take k pre))) ≠ n.
Proof.
  revert count. induction cs as [|[i j] cs IH]; intros count.
  { split; [discriminate|]. by intros ([|??] & ? & ? & ? & ? & _). }
  cbn [get_node_pos_from]. destruct (decide (n = count)) as [->|Hne].
  - split.
    + intros [= <-]. exists [], cs, i, j.
      split_and!; [done..|cbn; lia|cbn; lia].
    + intros ([|c pre] & post & i' & j' & Hcs & -> & Hn & Hfirst).
      * by injection Hcs as -> -> _.
      * specialize (Hfirst 0%nat). cbn in Hfirst. lia.
  - rewrite IH. split.
    + intros (pre & post & i' & j' & -> & -> & Hn & Hfirst).
      exists ((i, j) :: pre), post, i', j'. split_and!; [done..| |].
      * rewrite filter_cons.
        destruct (decide (occupied self (i, j))); cbn [length]; lia.
      * intros [|k] Hk; [cbn; lia|].
        cbn [length] in Hk. specialize (Hfirst k ltac:(lia)).
        cbn [take]. rewrite filter_cons.
        destruct (decide (occupied self (i, j))); cbn [length]; lia.
    + intros ([|c pre] & post & i' & j' & Hcs & -> & Hn & Hfirst).
      * cbn in Hn. lia.
      * injection Hcs as <- ->. exists pre, post, i', j'.
        split_and!; [done..| |].
        -- rewrite filter_cons in Hn.
           destruct (decide (occupied self (i, j))); cbn [length] in Hn; lia.
        -- intros k Hk. specialize (Hfirst (S k)). cbn [length take] in Hfirst.
           rewrite filter_cons in Hfirst.
           destruct (decide (occupied self (i, j))); cbn [length] in Hfirst; lia.
Qed.

(** What [get_node_pos] returns, and when: the first cell of the grid, in
    row-major order, that exactly [node_id] occupied cells precede; no cell
    before it is preceded by exactly [node_id] occupied cells.  (That cell
    need not be occupied itself.) *)
Theorem get_node_pos_returns self n pos :
  get_node_pos self n = Ok pos ↔
  ∃ pre post i j,
    cells self = pre ++ (i, j) :: post ∧ pos = (Z.of_nat i, Z.of_nat j) ∧
    (i < num_rows self)%nat ∧ (j < num_cols self)%nat ∧
    Z.of_nat (length (filter (occupied self) pre)) = n ∧
    ∀ k, (k < length pre)%nat →
         Z.of_nat (length (filter (occupied self) (take k pre))) ≠ n.
Proof.
  unfold get_node_pos. rewrite get_node_pos_from_returns. split.
  - intros (pre & post & i & j & Hcs & -> & Hn & Hfirst).
    assert ((i, j) ∈ cells self) as [? ?]%elem_of_index_pairs
      by (rewrite Hcs; apply elem_of_app; right; left).
    exists pre, post, i, j. split_and!; [done..|lia|].
    intros k Hk. specialize (Hfirst k Hk). lia.
  - intros (pre & post & i & j & Hcs & -> & _ & _ & Hn & Hfirst).
    exists pre, post, i, j. split_and!; [done..|lia|].
    intros k Hk. specialize (Hfirst k Hk). lia.
Qed.

(** On the grid of three rows and two columns the cell for id 0 is (0, 0):
    no occupied cell precedes it, and it is the first such cell.  The DATA
    cell (0, 1) is preceded by no occupied cell either, but comes second. *)
Lemma get_node_pos_returns_witness :
  ∃ self, Topology.init 3 2 = Ok self ∧
    get_node_pos self 0 = Ok (0, 0) ∧
    get_node_pos self 3 = Ok (2, 0).
Proof.
  eexists. split; [reflexivity|]. split.
  - apply get_node_pos_returns. exists [], (tl (index_pairs 3 2)), 0%nat, 0%nat.
    split_and!; [reflexivity| reflexivity | cbn; lia | cbn; lia | reflexivity |].
    cbn. lia.
  - apply get_node_pos_returns.
    exists (take 4 (index_pairs 3 2)), (drop 5 (index_pairs 3 2)), 2%nat, 0%nat.
    split_and!; [reflexivity| reflexivity | cbn; lia | cbn; lia | reflexivity |].
    intros k Hk. cbn in Hk.
    destruct k as [|[|[|[|k]]]]; [vm_compute; discriminate..|lia].
Defined.

Lemma get_node_pos_from_below self n count cs :
  n < count → get_node_pos_from self n count cs = Raise ValueError.
Proof.
  revert count. induction cs as [|[i j] cs IH]; intros count Hn; [done|].
  cbn [get_node_pos_from]. rewrite decide_False by lia.
  apply IH. case_decide; lia.
Qed.

(** A negative id, and an id above the number of nodes, is rejected. *)
Theorem get_node_pos_invalid self n :
  n < 0 ∨ Z.of_nat (length (node_list self)) < n →
  get_node_pos self n = Raise ValueError.
Proof.
  intros [Hn|Hn].
  - by apply get_node_pos_from_below.
  - apply get_node_pos_from_invalid. rewrite length_node_list in Hn. lia.
Qed.

Lemma get_node_pos_invalid_witness :
  ∃ self, Topology.init 3 2 = Ok self ∧
          get_node_pos self 5 = Raise ValueError.
Proof.
  eexists. split; [reflexivity|].
  apply get_node_pos_invalid. right. vm_compute. reflexivity.
Defined.

(** Where [get_node_pos] lands on an occupied cell, [get_node_id] gives the
    id back. *)
Theorem get_node_id_get_node_pos_on_occupied self n i j :
  get_node_pos self n = Ok (Z.of_nat i, Z.of_nat j) →
  occupied self (i, j) →
  get_node_id self (Z.of_nat i, Z.of_nat j) = Ok n.
Proof. intros Hpos Hocc. by eapply get_node_id_get_node_pos_occupied. Qed.

Lemma get_node_id_get_node_pos_on_occupied_witness :
  ∃ self, Topology.init 3 2 = Ok self ∧
          get_node_id self (Z.of_nat 1, Z.of_nat 1) = Ok 2.
Proof.
  eexists. split; [reflexivity|].
  apply get_node_id_get_node_pos_on_occupied; [reflexivity | by vm_compute].
Defined.

(** On every grid with at least two rows and two columns, node id 0 (the
    DATA node) does not survive the round trip: [get_node_pos 0] is the
    EMPTY first cell, whose id is -1. *)
Theorem round_trip_fails_for_data_node nr nc self :
  Topology.init nr nc = Ok self → (2 ≤ nr)%nat → (2 ≤ nc)%nat →
  get_node_pos self 0 = Ok (0, 0) ∧ get_node_id self (0, 0) = Ok (-1).
Proof.
  intros Hinit Hr Hc.
  pose proof (round_trip_fails_at_0 nr nc self Hinit Hr Hc) as H.
  apply init_inv in Hinit as (Hnr & Hnc & _).
  rewrite get_node_pos_0 in H |- * by lia. done.
Qed.

Lemma round_trip_fails_for_data_node_witness :
  ∃ self, Topology.init 4 3 = Ok self ∧
          get_node_pos self 0 = Ok (0, 0) ∧ get_node_id self (0, 0) = Ok (-1).
Proof.
  eexists. split; [reflexivity|].
  apply (round_trip_fails_for_data_node 4 3); [reflexivity | lia | lia].
Defined.

(** [get_coords] inverts the index [row * num_cols + col] that
    [is_attack_legal] computes for the adjacency matrix. *)
Theorem get_coords_index self row col :
  0 <= col < Z.of_nat (num_cols self) →
  get_coords self (row * Z.of_nat (num_cols self) + col) = Ok (row, col).
Proof.
  intros Hcol. unfold get_coords, py_floordiv, py_mod.
  rewrite !decide_False by lia. cbn.
  rewrite Z.div_add_l, Z.div_small, Z.add_0_r by lia.
  by rewrite Z.add_comm, Z.mod_add, Z.mod_small by lia.
Qed.

Lemma get_coords_index_witness :
  ∃ self, Topology.init 3 2 = Ok self ∧
          get_coords self (2 * Z.of_nat (num_cols self) + 1) = Ok (2, 1).
Proof.
  eexists. split; [reflexivity|].
  apply get_coords_index. cbn. lia.
Defined.

(** ** The entries of the adjacency matrix *)

Lemma data_pos_default_eq nr nc A :
  (2 ≤ nr)%nat → (1 ≤ nc)%nat →
  data_pos (mkNetworkConfig nr nc (default_graph_layout nr nc) A)
  = Ok (0, Z.of_nat (nc `div` 2)).
Proof.
  intros Hr Hc.
  destruct (data_pos_default nr nc A Hr Hc) as (i & j & -> & Hi & Hj & Hty).
  rewrite layout_at_default in Hty by done. unfold layout_cell in Hty.
  repeat case_decide; try discriminate. subst. do 2 f_equal.
Qed.

Lemma start_pos_default_eq nr nc A :
  (1 ≤ nr)%nat → (1 ≤ nc)%nat →
  start_pos (mkNetworkConfig nr nc (default_graph_layout nr nc) A)
  = Ok (Z.of_nat nr - 1, Z.of_nat (nc `div` 2)).
Proof.
  intros Hr Hc.
  destruct (start_pos_default nr nc A Hr Hc) as (i & j & -> & Hi & Hj & Hty).
  rewrite layout_at_default in Hty by done. unfold layout_cell in Hty.
  repeat case_decide; try discriminate. subst. do 2 f_equal. lia.
Qed.

(** On the default layout the loop body writes an edge exactly for linked
    cells. *)
Lemma adjacency_body_default nr nc A M i j :
  (2 ≤ nr)%nat → (1 ≤ nc)%nat →
  adjacency_body (mkNetworkConfig nr nc (default_graph_layout nr nc) A) M (i, j)
  = Ok (if decide (linked nr nc i j) then set_edge M i j else M).
Proof.
  intros Hr Hc. unfold adjacency_body, data_row, data_col, start_row, start_col.
  rewrite data_pos_default_eq, start_pos_default_eq by lia.
  unfold linked. cbn. repeat case_decide; try done; try lia; tauto.
Qed.

Lemma mget_set_edge n M i j a b :
  square n M → (i < n)%nat → (j < n)%nat →
  mget (set_edge M i j) a b
  = if decide ((a = i ∧ b = j) ∨ (a = j ∧ b = i)) then Some 1 else mget M a b.
Proof.
  intros HM Hi Hj. unfold set_edge.
  rewrite (mget_mset n) by auto using square_mset.
  rewrite (mget_mset n) by done.
  repeat case_decide; (done || tauto).
Qed.

Section edges.
Variable W : nat → nat → Prop.
Context `{!∀ i j, Decision (W i j)}.

#[local] Instance written_dec ps a b : Decision (written W ps a b).
Proof. unfold written. apply _. Defined.

Lemma loop_entries n ps visited M :
  Forall (fun p => p.1 < n ∧ p.2 < n)%nat ps →
  square n M →
  (∀ a b, (a < n)%nat → (b < n)%nat →
     mget M a b = Some (if decide (written W visited a b) then 1 else 0)) →
  square n (foldl (pure_step W) M ps) ∧
  ∀ a b, (a < n)%nat → (b < n)%nat →
    mget (foldl (pure_step W) M ps) a b
    = Some (if decide (written W (visited ++ ps) a b) then 1 else 0).
Proof.
  intros Hps. revert visited M.
  induction Hps as [|[i j] ps [Hi Hj] _ IH]; intros visited M Hsq Hent.
  { rewrite app_nil_r. done. }
  cbn [foldl]. cbn [fst snd] in Hi, Hj.
  replace (visited ++ (i, j) :: ps) with ((visited ++ [(i, j)]) ++ ps)
    by (by rewrite <- app_assoc).
  apply IH.
  - unfold pure_step. cbn [fst snd]. case_decide; [by apply square_set_edge|done].
  - intros a b Ha Hb. unfold pure_step. cbn [fst snd].
    assert (written W (visited ++ [(i, j)]) a b
            ↔ written W visited a b ∨
              (W i j ∧ ((a = i ∧ b = j) ∨ (a = j ∧ b = i)))) as Hw.
    { unfold written. rewrite Exists_app, Exists_cons, Exists_nil. cbn. tauto. }
    destruct (decide (W i j)) as [HW|HW].
    + rewrite (mget_set_edge n) by done. rewrite Hent by done.
      repeat case_decide; (done || tauto).
    + rewrite Hent by done. repeat case_decide; (done || tauto).
Qed.

Lemma written_all n a b :
  (a < n)%nat → (b < n)%nat →
  written W (index_pairs n n) a b ↔ W a b ∨ W b a.
Proof.
  intros Ha Hb. unfold written. rewrite Exists_exists. split.
  - intros ([i j] & _ & HW & [[-> ->]|[-> ->]]); cbn in HW; tauto.
  - intros [HW|HW].
    + exists (a, b). split; [apply list_elem_of_In, elem_of_index_pairs; lia|].
      cbn. tauto.
    + exists (b, a). split; [apply list_elem_of_In, elem_of_index_pairs; lia|].
      cbn. tauto.
Qed.
End edges.

Lemma default_adjacency_matrix_pure nr nc A (ps : list (nat * nat)) M :
  (2 ≤ nr)%nat → (1 ≤ nc)%nat →
  foldl (fun acc ij =>
           M ← acc;
           adjacency_body (mkNetworkConfig nr nc (default_graph_layout nr nc) A) M ij)
        (Ok M) ps
  = Ok (foldl (pure_step (linked nr nc)) M ps).
Proof.
  intros Hr Hc. revert M. induction ps as [|[i j] ps IH]; intros M; [done|].
  cbn [foldl]. cbn [mbind result_bind].
  rewrite adjacency_body_default by done. apply IH.
Qed.

Lemma adjacency_matrix_linked nr nc self a b :
  Topology.init nr nc = Ok self →
  (2 ≤ nr)%nat → (1 ≤ nc)%nat →
  (a < nr * nc)%nat → (b < nr * nc)%nat →
  mget (adjacency_matrix self) a b
  = Some (if decide (linked nr nc a b ∨ linked nr nc b a) then 1 else 0).
Proof.
  intros (_ & _ & _ & HA)%init_inv Hr Hc Ha Hb.
  unfold default_adjacency_matrix in HA. cbn [num_rows num_cols] in HA.
  rewrite default_adjacency_matrix_pure in HA by done.
  injection HA as <-.
  destruct (loop_entries (linked nr nc) (nr * nc)
              (index_pairs (nr * nc) (nr * nc)) []
              (zeros (nr * nc) (nr * nc))) as [_ Hent].
  - apply Forall_forall. intros [i j] Hin. apply list_elem_of_In in Hin.
    by apply elem_of_index_pairs in Hin.
  - apply square_zeros.
  - intros a' b' Ha' Hb'. rewrite mget_zeros, decide_True by done.
    rewrite decide_False; [done|]. unfold written. by intros H%Exists_nil.
  - rewrite Hent by done. cbn [app].
    pose proof (written_all (linked nr nc) (nr * nc) a b Ha Hb).
    repeat case_decide; (done || tauto).
Qed.

(** The adjacency matrix that the constructor builds: the entry at
    [(a, b)] is 1 when [a] links to [b] or [b] links to [a], and 0
    otherwise. *)
Theorem adjacency_matrix_entries nr nc self a b :
  Topology.init nr nc = Ok self →
  (2 ≤ nr)%nat → (1 ≤ nc)%nat →
  (a < nr * nc)%nat → (b < nr * nc)%nat →
  mget (adjacency_matrix self) a b
  = Some (if decide (linked nr nc a b ∨ linked nr nc b a) then 1 else 0).
Proof. apply adjacency_matrix_linked. Qed.

Lemma adjacency_matrix_entries_witness :
  ∃ self, Topology.init 3 2 = Ok self ∧
    mget (adjacency_matrix self) 1 2
    = Some (if decide (linked 3 2 1 2 ∨ linked 3 2 2 1) then 1 else 0).
Proof.
  eexists. split; [reflexivity|].
  apply (adjacency_matrix_entries 3 2); [reflexivity | lia | lia | cbn; lia | cbn; lia].
Defined.

Lemma linked_rows nr nc a b :
  (1 ≤ nc)%nat → linked nr nc a b →
  Z.of_nat b `div` Z.of_nat nc = Z.of_nat a `div` Z.of_nat nc + 1 ∨
  Z.of_nat b `div` Z.of_nat nc = Z.of_nat a `div` Z.of_nat nc - 1.
Proof.
  intros Hc. unfold linked. cbv zeta. repeat case_decide; intros; lia.
Qed.

Lemma adjacency_matrix_rows nr nc self a b :
  Topology.init nr nc = Ok self →
  (2 ≤ nr)%nat → (1 ≤ nc)%nat →
  (a < nr * nc)%nat → (b < nr * nc)%nat →
  mget (adjacency_matrix self) a b = Some 1 →
  Z.abs (Z.of_nat a `div` Z.of_nat nc - Z.of_nat b `div` Z.of_nat nc) = 1.
Proof.
  intros Hinit Hr Hc Ha Hb.
  rewrite (adjacency_matrix_linked nr nc self a b) by done.
  case_decide as Hl; [|discriminate]. intros _.
  destruct Hl as [Hl|Hl]; apply linked_rows in Hl; lia.
Qed.

(** Every edge joins cells of neighbouring rows; in particular no cell is
    adjacent to itself or to a cell of its own row. *)
Theorem adjacency_matrix_neighbouring_rows nr nc self a b :
  Topology.init nr nc = Ok self →
  (2 ≤ nr)%nat → (1 ≤ nc)%nat →
  (a < nr * nc)%nat → (b < nr * nc)%nat →
  mget (adjacency_matrix self) a b = Some 1 →
  Z.abs (Z.of_nat a `div` Z.of_nat nc - Z.of_nat b `div` Z.of_nat nc) = 1.
Proof. apply adjacency_matrix_rows. Qed.

Lemma adjacency_matrix_neighbouring_rows_witness :
  ∃ self, Topology.init 3 2 = Ok self ∧
    Z.abs (Z.of_nat 1 `div` Z.of_nat 2 - Z.of_nat 2 `div` Z.of_nat 2) = 1.
Proof.
  eexists. split; [reflexivity|].
  eapply (adjacency_matrix_neighbouring_rows 3 2);
    [reflexivity | lia | lia | cbn; lia | cbn; lia | reflexivity].
Defined.

(** * Further facts about the game configuration and the action interpreter *)

(** [num_nodes] of a default game configuration is the length of the node
    list of its network. *)
Theorem num_nodes_is_length_node_list layers servers types maxv gc :
  Game.init None layers servers types maxv = Ok gc →
  num_nodes gc = Z.of_nat (length (node_list (network_config gc))).
Proof. intros H. by rewrite (length_node_list_default _ _ _ _ _ H). Qed.

Lemma num_nodes_is_length_node_list_witness :
  ∃ gc, Game.init None 2 3 10 9 = Ok gc ∧
        num_nodes gc = Z.of_nat (length (node_list (network_config gc))).
Proof.
  eexists. split; [reflexivity|].
  by apply (num_nodes_is_length_node_list 2 3 10 9).
Defined.

(** Every id of the attack action space is interpreted without an
    exception, as a valid node id and a valid type, and encoding the two
    gives the id back. *)
Theorem interpret_action_in_attack_space layers servers types maxv gc a :
  Game.init None layers servers types maxv = Ok gc →
  0 <= a < num_attack_actions gc →
  ∃ n pos ty,
    interpret_action a gc = Ok (n, pos, ty) ∧
    0 <= n < num_nodes gc ∧ 0 <= ty < types ∧
    get_action_id n ty gc = a.
Proof.
  intros Hgc Ha.
  pose proof Hgc as (_ & _ & Hty & Hn & Haa & _)%init_default_inv.
  assert (0 < types) as Htypes by nia.
  assert (0 <= a `div` types < num_nodes gc) as Hid.
  { split; [apply Z.div_pos; lia|]. apply Z.div_lt_upper_bound; lia. }
  pose proof (get_node_pos_valid _ _ _ _ _ _ Hgc Hid) as Hpos.
  destruct (get_node_pos (network_config gc) (a `div` types)) as [pos|] eqn:Hp;
    [|done].
  exists (a `div` types), pos, (a `mod` types).
  unfold interpret_action, get_attack_defense_type, get_action_id,
    py_floordiv, py_mod.
  rewrite Hty, !decide_False by lia. cbn. rewrite Hp. cbn.
  split_and!; try done; try lia.
  - apply Z.mod_pos_bound. lia.
  - apply Z.mod_pos_bound. lia.
  - pose proof (Z.div_mod a types). lia.
Qed.

Lemma interpret_action_in_attack_space_witness :
  ∃ gc, Game.init None 1 2 10 9 = Ok gc ∧
    ∃ n pos ty,
      interpret_action 37 gc = Ok (n, pos, ty) ∧
      0 <= n < num_nodes gc ∧ 0 <= ty < 10 ∧
      get_action_id n ty gc = 37.
Proof.
  eexists. split; [reflexivity|].
  apply (interpret_action_in_attack_space 1 2 10 9); [reflexivity|].
  vm_compute. by split.
Defined.

(** On a validated default configuration the defense check answers exactly
    on the ids below [num_attack_actions]; on the remaining [num_nodes] ids
    of the defense action space it raises. *)
Theorem is_defense_id_legal_defined_iff layers servers types maxv gc d :
  Game.init None layers servers types maxv = Ok gc →
  validate_config gc = Ok tt →
  0 <= d < num_defense_actions gc →
  is_Ok (is_defense_id_legal d gc) ↔ d < num_attack_actions gc.
Proof.
  intros Hgc Hval Hd.
  pose proof Hgc as (_ & _ & Hty & Hn & Haa & Hda)%init_default_inv.
  assert (0 < types) as Htypes.
  { unfold validate_config in Hval. rewrite Hty in Hval.
    repeat case_decide; (discriminate || lia). }
  rewrite Haa. split.
  - intros Hok. destruct (decide (d < types * num_nodes gc)); [done|].
    exfalso. by eapply (is_defense_id_legal_raises _ _ _ _ _ d Hgc); [|lia|].
  - intros Hlt.
    destruct (is_defense_id_legal_in_range _ _ _ _ _ d Hgc ltac:(lia))
      as (ty & _ & ->). done.
Qed.

Lemma is_defense_id_legal_defined_iff_witness :
  ∃ gc, Game.init None 1 2 10 9 = Ok gc ∧
        (is_Ok (is_defense_id_legal 43 gc) ↔ 43 < num_attack_actions gc).
Proof.
  eexists. split; [reflexivity|].
  apply (is_defense_id_legal_defined_iff 1 2 10 9);
    [reflexivity | reflexivity | vm_compute; by split].
Defined.

(** Below [num_attack_actions] the defense check answers by the type of the
    node [d // num_attack_types]: True for SERVER and DATA, False for
    START. *)
Theorem is_defense_id_legal_by_type layers servers types maxv gc d :
  Game.init None layers servers types maxv = Ok gc →
  0 <= d < num_attack_actions gc →
  ∃ ty, node_list (network_config gc) !! Z.to_nat (d `div` types) = Some ty ∧
        is_defense_id_legal d gc = Ok (bool_decide (ty = SERVER ∨ ty = DATA)).
Proof.
  intros Hgc Hd.
  pose proof Hgc as (_ & _ & _ & _ & Haa & _)%init_default_inv.
  apply (is_defense_id_legal_in_range _ _ _ _ _ d Hgc). lia.
Qed.

Lemma is_defense_id_legal_by_type_witness :
  ∃ gc, Game.init None 1 2 10 9 = Ok gc ∧
    ∃ ty, node_list (network_config gc) !! Z.to_nat (35 `div` 10) = Some ty ∧
          is_defense_id_legal 35 gc = Ok (bool_decide (ty = SERVER ∨ ty = DATA)).
Proof.
  eexists. split; [reflexivity|].
  apply (is_defense_id_legal_by_type 1 2 10 9); [reflexivity|].
  vm_compute. by split.
Defined.

(** * Further facts about attack legality *)

Lemma filter_row_single self i a s n :
  (∀ j, s ≤ j < s + n → occupied self (i, j) ↔ j = a)%nat →
  (s ≤ a < s + n)%nat →
  filter (occupied self) ((fun j => (i, j)) <$> seq s n) = [(i, a)].
Proof.
  revert s. induction n as [|n IH]; intros s H Ha; [lia|].
  cbn [seq]. rewrite fmap_cons, filter_cons.
  destruct (decide (occupied self (i, s))) as [Ho|Ho].
  - apply H in Ho; [|lia]. subst a. f_equal.
    assert (length (filter (occupied self) ((fun j => (i, j)) <$> seq (S s) n)) = 0%nat)
      as Hz.
    { rewrite (count_row_single self i s) by (intros j Hj; apply H; lia).
      by rewrite decide_False by lia. }
    by apply nil_length_inv in Hz.
  - assert (s ≠ a) by (intros ->; apply Ho, H; [lia|done]).
    apply IH; [intros j Hj; apply H; lia | lia].
Qed.

(** The last node of the default layout is the START node. *)
Lemma node_list_last_default nr nc A :
  (1 ≤ nr)%nat → (1 ≤ nc)%nat →
  py_index (node_list (mkNetworkConfig nr nc (default_graph_layout nr nc) A)) (-1)
  = Ok START.
Proof.
  intros Hr Hc. pose proof (half_lt nc Hc) as Hh.
  set (self := mkNetworkConfig nr nc _ A).
  assert (∃ pre, node_list self = pre ++ [START]) as [pre Hpre].
  { unfold node_list, cells, index_pairs. cbn [num_rows num_cols self].
    destruct nr as [|nr]; [lia|]. rewrite seq_S, bind_app.
    rewrite list.filter_app, fmap_app. eexists. f_equal.
    cbn [mbind list_bind]. rewrite app_nil_r.
    rewrite (filter_row_single self _ (nc `div` 2)).
    - cbn [fmap list_fmap fst snd]. f_equal. subst self.
      rewrite layout_at_default by lia.
      rewrite layout_cell_bottom by lia. by rewrite decide_True.
    - intros j Hj. subst self. rewrite occupied_default by lia.
      rewrite layout_cell_bottom by lia.
      case_decide; split; intros; (done || congruence).
    - lia. }
  change (-1) with (- Z.of_nat 1).
  rewrite py_index_from_end by (rewrite Hpre, length_app; cbn; lia).
  by rewrite Hpre, reverse_app.
Qed.

Lemma is_attack_legal_empty_cell nr nc self i j attacker_pos past_moves :
  Topology.init nr nc = Ok self →
  (i < nr)%nat → (j < nc)%nat → layout_at self i j = EMPTY →
  is_attack_legal (Z.of_nat i, Z.of_nat j) attacker_pos self past_moves = Ok false.
Proof.
  intros Hinit Hi Hj Hty. unfold is_attack_legal.
  case_decide; [done|].
  apply init_inv in Hinit as (Hnr & Hnc & Hl & _).
  unfold get_node_id. cbn [fst snd].
  rewrite get_node_id_from_empty;
    [|apply elem_of_index_pairs; lia | unfold occupied; cbn [fst snd]; by intros []].
  cbn [mbind result_bind].
  destruct self as [nr' nc' g A]. cbn in Hnr, Hnc, Hl. subst.
  rewrite node_list_last_default by lia. cbn [mbind result_bind].
  by rewrite decide_True.
Qed.

(** A target on an EMPTY cell of the default layout is rejected: the id of
    the cell is -1, and [node_list[-1]] is the START node. *)
Theorem is_attack_legal_empty_target nr nc self i j attacker_pos past_moves :
  Topology.init nr nc = Ok self →
  (i < nr)%nat → (j < nc)%nat → layout_at self i j = EMPTY →
  is_attack_legal (Z.of_nat i, Z.of_nat j) attacker_pos self past_moves = Ok false.
Proof. apply is_attack_legal_empty_cell. Qed.

Lemma is_attack_legal_empty_target_witness :
  ∃ self, Topology.init 3 2 = Ok self ∧
    is_attack_legal (Z.of_nat 0, Z.of_nat 0) (1, 0) self None = Ok false.
Proof.
  eexists. split; [reflexivity|].
  apply (is_attack_legal_empty_target 3 2); [reflexivity | lia | lia | reflexivity].
Defined.

(** On every default configuration with at least two servers per layer, no
    attack id of node 0, the DATA node, is ever legal: [interpret_action]
    places node 0 on the EMPTY first cell of the grid. *)
Theorem is_attack_id_legal_data_node layers servers types maxv gc a
    attacker_pos past_moves :
  Game.init None layers servers types maxv = Ok gc →
  (2 ≤ servers)%nat →
  0 <= a < types →
  is_attack_id_legal a gc attacker_pos past_moves = Ok false.
Proof.
  intros Hgc Hs Ha.
  pose proof Hgc as (Hinit & _ & Hty & _)%init_default_inv.
  pose proof Hinit as (Hnr & Hnc & Hl & _)%init_inv.
  unfold is_attack_id_legal, interpret_action, get_attack_defense_type,
    py_floordiv, py_mod.
  rewrite Hty, !decide_False by lia. cbn [mbind result_bind].
  rewrite Z.div_small by lia.
  rewrite get_node_pos_0 by lia. cbn [mbind result_bind].
  apply (is_attack_legal_empty_cell (layers + 2) servers _ 0 0);
    [done | lia | lia |].
  destruct (network_config gc) as [nr nc g A]. cbn in Hnr, Hnc, Hl. subst.
  rewrite layout_at_default by lia. rewrite layout_cell_top by lia.
  rewrite decide_False; [done|].
  intros H0. symmetry in H0. apply Nat.div_small_iff in H0; lia.
Qed.

Lemma is_attack_id_legal_data_node_witness :
  ∃ gc, Game.init None 1 2 10 9 = Ok gc ∧
        is_attack_id_legal 7 gc (1, 1) None = Ok false.
Proof.
  eexists. split; [reflexivity|].
  apply (is_attack_id_legal_data_node 1 2 10 9); [reflexivity | lia | lia].
Defined.

(** A target outside the grid, other than the attacker's own position,
    makes [is_attack_legal] raise. *)
Theorem is_attack_legal_outside self target_pos attacker_pos past_moves :
  target_pos ≠ attacker_pos →
  ¬ (0 <= target_pos.1 < Z.of_nat (num_rows self) ∧
     0 <= target_pos.2 < Z.of_nat (num_cols self)) →
  is_attack_legal target_pos attacker_pos self past_moves = Raise ValueError.
Proof.
  intros Hne Hout. unfold is_attack_legal. rewrite decide_False by done.
  destruct target_pos as [row col]. unfold get_node_id. cbn [fst snd] in *.
  rewrite get_node_id_from_absent; [done|].
  intros i j [Hi Hj]%elem_of_index_pairs [-> ->]. apply Hout. lia.
Qed.

Lemma is_attack_legal_outside_witness :
  ∃ self, Topology.init 3 2 = Ok self ∧
          is_attack_legal (3, 1) (2, 1) self None = Raise ValueError.
Proof.
  eexists. split; [reflexivity|].
  apply is_attack_legal_outside; [done | cbn; lia].
Defined.

(** A history of fewer than four moves is ignored. *)
Theorem is_attack_legal_ignores_short_history self target_pos attacker_pos pm :
  (length pm < 4)%nat →
  is_attack_legal target_pos attacker_pos self (Some pm)
  = is_attack_legal target_pos attacker_pos self None.
Proof. apply is_attack_legal_short_history. Qed.

Lemma is_attack_legal_ignores_short_history_witness :
  ∃ self, Topology.init 3 2 = Ok self ∧
    is_attack_legal (1, 1) (0, 1) self (Some [1; 2; 1])
    = is_attack_legal (1, 1) (0, 1) self None.
Proof.
  eexists. split; [reflexivity|].
  apply is_attack_legal_ignores_short_history. cbn. lia.
Defined.

Lemma is_attack_legal_true_adjacent self target_pos attacker_pos past_moves :
  is_attack_legal target_pos attacker_pos self past_moves = Ok true →
  adjacent self attacker_pos target_pos = Ok true.
Proof.
  unfold is_attack_legal.
  case_decide; [discriminate|].
  destruct (get_node_id self target_pos); [|discriminate]. cbn [mbind result_bind].
  destruct (py_index (node_list self) _); [|discriminate]. cbn [mbind result_bind].
  case_decide; [discriminate|].
  destruct (match past_moves with Some _ => _ | None => _ end) as [[|]|];
    cbn [mbind result_bind]; (discriminate || done).
Qed.

Lemma adjacent_mget self (a b : nat) r c r' c' :
  Z.of_nat a = r * Z.of_nat (num_cols self) + c →
  Z.of_nat b = r' * Z.of_nat (num_cols self) + c' →
  adjacent self (r, c) (r', c') = Ok true →
  mget (adjacency_matrix self) a b = Some 1.
Proof.
  intros Ha Hb. unfold adjacent. rewrite <- Ha, <- Hb.
  unfold py_index, mget. cbn zeta.
  destruct (decide (Z.of_nat a < 0)) as [?|_]; [lia|].
  destruct (decide (0 <= Z.of_nat a < _)); [|discriminate].
  rewrite Nat2Z.id. destruct (adjacency_matrix self !! a) as [row|]; [|discriminate].
  cbn [mbind result_bind option_bind].
  destruct (decide (Z.of_nat b < 0)) as [?|_]; [lia|].
  destruct (decide (0 <= Z.of_nat b < _)); [|discriminate].
  rewrite Nat2Z.id. destruct (row !! b) as [v|]; [|discriminate].
  cbn. case_bool_decide; [by subst|discriminate].
Qed.

(** A legal attack moves the attacker by exactly one row: for positions
    inside the grid, [is_attack_legal] answers True only if the rows of
    target and attacker differ by one. *)
Theorem is_attack_legal_one_row nr nc self target_pos attacker_pos past_moves :
  Topology.init nr nc = Ok self →
  (2 ≤ nr)%nat → (1 ≤ nc)%nat →
  0 <= target_pos.1 < Z.of_nat nr → 0 <= target_pos.2 < Z.of_nat nc →
  0 <= attacker_pos.1 < Z.of_nat nr → 0 <= attacker_pos.2 < Z.of_nat nc →
  is_attack_legal target_pos attacker_pos self past_moves = Ok true →
  Z.abs (attacker_pos.1 - target_pos.1) = 1.
Proof.
  intros Hinit Hr Hc Htr Htc Har Hac Hlegal.
  apply is_attack_legal_true_adjacent in Hlegal.
  destruct target_pos as [tr tc], attacker_pos as [ar ac]. cbn [fst snd] in *.
  pose proof Hinit as (Hnr & Hnc & _)%init_inv.
  pose proof (adjacent_mget self (Z.to_nat (ar * Z.of_nat nc + ac))
                (Z.to_nat (tr * Z.of_nat nc + tc)) ar ac tr tc) as Hm.
  rewrite Hnc in Hm. rewrite !Z2Nat.id in Hm by nia.
  specialize (Hm eq_refl eq_refl Hlegal).
  apply (adjacency_matrix_rows nr nc) in Hm; [|done..| |].
  - rewrite !Z2Nat.id in Hm by nia.
    rewrite !Z.div_add_l, !Z.div_small in Hm by lia. lia.
  - apply Nat2Z.inj_lt. rewrite Z2Nat.id by nia. nia.
  - apply Nat2Z.inj_lt. rewrite Z2Nat.id by nia. nia.
Qed.

Lemma is_attack_legal_one_row_witness :
  ∃ self, Topology.init 3 2 = Ok self ∧
          is_attack_legal (1, 1) (2, 1) self None = Ok true ∧
          Z.abs ((2, 1).1 - (1, 1).1) = 1.
Proof.
  eexists. split; [reflexivity|]. split; [reflexivity|].
  eapply (is_attack_legal_one_row 3 2 _ (1, 1) (2, 1) None);
    [reflexivity | lia | lia | cbn; lia.. | reflexivity].
Defined.

(** * Further facts about the trainer *)

Section trainer_extras.
Context {score : Type} {arith : Arith score} {policy bot tensor : Type}.

#[local] Abbreviation PPO := (@PPO score policy bot tensor).
#[local] Abbreviation M := (@M score policy bot tensor).

Implicit Types (cfg : @PolicyGradientAgentConfig score) (self : PPO).

(** Without pool mode, a learning attacker whose train flag is off makes
    [collect_rollouts] raise in its first pass, for every world whose
    callback lets that pass continue and every positive horizon:
    [AttributeError] with a discrete action space, [UnboundLocalError]
    otherwise.  No row has been added: the attacker's buffer is empty, and
    the defender's is empty when the defender is a learning agent and as it
    was otherwise. *)
Theorem collect_rollouts_raises_when_train_flag_off cfg sp ne
    (world : nat → step_world) n self :
  attacker cfg = true → pool_mode cfg = false →
  train_attacker self = false →
  0 < n → w_on_step (world 0%nat) = true →
  let r := collect_rollouts cfg sp ne world n self in
  r.1 = Raise (match sp with
               | Discrete => AttributeError
               | _ => UnboundLocalError
               end) ∧
  attacker_rollout_buffer r.2 = [] ∧
  defender_rollout_buffer r.2
    = if defender cfg then [] else defender_rollout_buffer self.
Proof. apply collect_rollouts_train_flag_off. Qed.

(** When the callback stops the first rollout, [collect_rollouts] returns
    the bare [False], and [learn], which unpacks four values from it,
    raises [TypeError]: the [break] that follows is never reached. *)
Theorem learn_raises_when_callback_stops cfg sp ne n total
    (world : nat → iteration_world) fuel self :
  pool_mode cfg = false →
  0 < n → 0 < total →
  w_on_step (w_rollout (world 0%nat) 0%nat) = false →
  (learn cfg sp ne n total true world (S fuel) self).1 = Raise TypeError.
Proof.
  intros Hpool Hn Htotal Hstop.
  destruct (Z.to_nat n) as [|m] eqn:Hm; [lia|].
  unfold learn. cbn [learn_loop].
  unfold learn_iteration, collect_rollouts. rewrite Hm. cbn [rollout_loop].
  unfold rollout_step, choose_actions. rewrite Hpool, Hstop.
  destruct self.
  destruct (w_attacker_forward (w_rollout (world 0%nat) 0%nat)) as [[? ?] ?].
  destruct (w_defender_forward (w_rollout (world 0%nat) 0%nat)) as [[? ?] ?].
  unfold mbind, M_bind, modify, get, when, mret, M_ret. cbn.
  rewrite decide_True by lia.
  by destruct (attacker cfg), (defender cfg), train_attacker0, train_defender0.
Qed.

(** [update_quality_score] never changes the size of the pool it updates
    and never touches the other pool; when it raises it has changed
    nothing. *)
Theorem update_quality_score_atomic cfg idx b self :
  let r := update_quality_score cfg idx b self in
  length (pool_of b r.2) = length (pool_of b self) ∧
  pool_of (negb b) r.2 = pool_of (negb b) self ∧
  (¬ is_Ok r.1 → r.2 = self).
Proof.
  cbv zeta. unfold update_quality_score, get_pool_quality_scores.
  unfold pool_config_attr, mbind, M_bind, get, lift, modify, raise.
  destruct (mapM entry_quality (pool_of b self)) as [qs|]; [|done].
  destruct (get_softmax_distribution qs) as [dist|]; [|done].
  destruct (py_index _ idx) as [p|]; [|done].
  destruct (py_index _ idx) as [x|]; [|done].
  destruct (entry_quality x) as [q|]; [|done].
  destruct (opponent_pool_config cfg) as [opc|]; [|done]. cbn [mret M_ret].
  destruct (py_position _ idx) as [k|]; [|done].
  destruct x as [o q'|o]; [|done]. cbn [fst snd].
  rewrite pool_of_set_pool, length_insert, pool_of_set_pool_other.
  split_and!; [done..|]. by intros [].
Qed.

(** With a capacity of zero or less, [add_model_to_pool] on an empty pool
    tries to evict from the empty list: it raises [IndexError] and changes
    nothing. *)
Theorem add_model_to_pool_no_capacity cfg opc b self :
  opponent_pool cfg = true → opponent_pool_config cfg = Some opc →
  pool_maxsize opc <= 0 → pool_of b self = [] →
  add_model_to_pool cfg b self = (Raise IndexError, self).
Proof.
  intros Hpool Hopc Hcap Hp. unfold add_model_to_pool.
  rewrite Hpool, Hopc, get_bind_run, Hp. cbn [length].
  rewrite bool_decide_true by lia. unfold when, pool_pop_0.
  rewrite bind_run, get_bind_run, Hp. reflexivity.
Qed.

End trainer_extras.

Lemma collect_rollouts_raises_when_train_flag_off_witness :
  let r := collect_rollouts example_config Box 1 (fun _ => example_step) 3
             (example_trainer false true) in
  r.1 = Raise UnboundLocalError ∧
  attacker_rollout_buffer r.2 = [] ∧
  defender_rollout_buffer r.2 = [].
Proof.
  apply (collect_rollouts_raises_when_train_flag_off example_config Box 1
           (fun _ => example_step) 3 (example_trainer false true));
    (reflexivity || lia).
Defined.

Lemma learn_raises_when_callback_stops_witness :
  (learn example_config Discrete 1 2 8 true (fun _ => example_stopping_iteration)
     10 (example_trainer true true)).1 = Raise TypeError.
Proof.
  apply (learn_raises_when_callback_stops example_config Discrete 1 2 8
           (fun _ => example_stopping_iteration) 9 (example_trainer true true));
    (reflexivity || lia).
Defined.

Lemma add_model_to_pool_no_capacity_witness :
  add_model_to_pool example_config_without_capacity true
    (example_trainer true true)
  = (Raise IndexError, example_trainer true true).
Proof.
  apply (add_model_to_pool_no_capacity example_config_without_capacity
           example_pool_config_without_capacity true (example_trainer true true));
    (reflexivity || (simpl; lia)).
Defined.
